(** * Gas metering and buffer helpers of the EVM opcode layer

    A shallow embedding of [packages/vm/src/evm/opcodes/util.ts] and the
    properties its specification states about it.

    Conventions of the embedding:
    - a JavaScript [bigint] and a [BN] are both unbounded integers: [Z];
      [bigint] division and remainder truncate toward zero ([Z.quot],
      [Z.rem]) and raise a [RangeError] on a zero divisor;
    - a [Buffer] is a list of bytes;
    - a function that may [throw] returns a [result]; a function that
      mutates the run state is a state transformer that also reports the
      exception, if any. *)

From Stdlib Require Import ZArith List String Ascii Bool Lia.
From Stdlib Require Import DecimalString DecimalZ DecimalPos.
From Stdlib.Strings Require Import Byte.
Import ListNotations.

Local Open Scope Z_scope.

(** ** Exceptions and the two monads of the embedding *)

Inductive exn : Type :=
| RangeError        (* bigint division by zero, invalid buffer size *)
| AssertionError    (* a failed [assert] of a library *)
| TypeError         (* a call of something that is not a function *)
| OutOfGas.         (* [trap(ERROR.OUT_OF_GAS)] *)

Inductive result (A : Type) : Type :=
| Ok (a : A)
| Throw (e : exn).

Arguments Ok {A} a.
Arguments Throw {A} e.

Class Monad (m : Type -> Type) : Type := {
  ret : forall {A}, A -> m A;
  bind : forall {A B}, m A -> (A -> m B) -> m B
}.

Declare Scope monad_scope.
Delimit Scope monad_scope with monad.
Notation "x <- c ;; k" := (bind c (fun x => k))
  (at level 61, c at next level, right associativity) : monad_scope.
Notation "c ;; k" := (bind c (fun _ => k))
  (at level 61, right associativity) : monad_scope.
Local Open Scope monad_scope.

#[export] Instance Monad_result : Monad result := {
  ret := fun A a => Ok a;
  bind := fun A B c k =>
    match c with
    | Ok a => k a
    | Throw e => Throw e
    end
}.

(** ** JavaScript [bigint] primitives *)

Module BigInt.

(** [a / b] on bigints. *)
Definition div (a b : Z) : result Z :=
  if b =? 0 then Throw RangeError else Ok (Z.quot a b).

(** [a % b] on bigints: the sign of the result is the sign of [a]. *)
Definition rem (a b : Z) : result Z :=
  if b =? 0 then Throw RangeError else Ok (Z.rem a b).

(** [~a]. *)
Definition not (a : Z) : Z := Z.lnot a.

(** [BigInt.asUintN(bits, a)]: [a] modulo [2^bits], in [0, 2^bits). *)
Definition asUintN (bits a : Z) : Z := a mod 2 ^ bits.

(** [a.mul(b)] on a bigint [a]: a bigint has no method [mul] (that is a
    method of [BN]), so the call throws a TypeError whatever [a] and [b]
    are. *)
Definition call_mul (a b : Z) : result Z := Throw TypeError.

End BigInt.

(** ** Arithmetic helpers *)

(** [mod] of the source ([mod] is a reserved notation here, hence the
    underscore). *)
Definition mod_ (a b : Z) : result Z :=
  r <- BigInt.rem a b ;;
  ret (if r <? 0 then b + r else r).

Definition divCeil (a b : Z) : result Z :=
  div <- BigInt.div a b ;;
  modulus <- mod_ a b ;;
  (* Fast case - exact division *)
  if modulus =? 0 then ret div
  (* Round up *)
  else ret (if div <? 0 then div - 1 else div + 1).

Definition fromTwos (a : Z) : Z :=
  BigInt.asUintN 256 (BigInt.not (a - 1)).

Definition toTwos (a : Z) : Z :=
  BigInt.asUintN 256 (BigInt.not a) + 1.

Definition abs (a : Z) : Z :=
  if a >? 0 then a else a * -1.


(** ** [BN] primitives

    [BN] is the arbitrary-precision integer of bn.js.  [add], [sub],
    [mul] and the comparisons are those of [Z]. *)

Module BN.

(** [a.div(b)]: truncating division; bn.js asserts a non-zero divisor. *)
Definition div (a b : Z) : result Z :=
  if b =? 0 then Throw AssertionError else Ok (Z.quot a b).

(** [a.divn(n)] for a small positive JavaScript number [n]. *)
Definition divn (a n : Z) : Z := Z.quot a n.

(** [a.toNumber()]: the same integer as a JavaScript number; bn.js
    asserts that the magnitude of [a] has at most 53 bits. *)
Definition toNumber (a : Z) : result Z :=
  if Z.abs a <? 2 ^ 53 then Ok a else Throw AssertionError.

End BN.

(** ** Buffers *)

Definition Buffer : Type := list byte.

Module Buf.

(** [buf.length] *)
Definition length (b : Buffer) : Z := Z.of_nat (List.length b).

(** [Buffer.alloc(size, 0)] *)
Definition alloc (size : Z) : result Buffer :=
  if size <? 0 then Throw RangeError else Ok (repeat x00 (Z.to_nat size)).

(** [a.equals(b)] *)
Fixpoint equals (a b : Buffer) : bool :=
  match a, b with
  | [], [] => true
  | x :: a', y :: b' => Byte.eqb x y && equals a' b'
  | _, _ => false
  end.

(** How [slice] reads one index: a negative index counts from the end
    of the buffer, and every index is clamped to [0, len]. *)
Definition clampIndex (len i : Z) : Z :=
  if i <? 0 then Z.max (len + i) 0 else Z.min i len.

(** [buf.slice(start, end)] *)
Definition slice (b : Buffer) (start end_ : Z) : Buffer :=
  let len := length b in
  let s := clampIndex len start in
  let e := clampIndex len end_ in
  firstn (Z.to_nat (e - s)) (skipn (Z.to_nat s) b).

End Buf.

(** Modelled from the spec: [setLengthLeft] and [setLengthRight] are
    imported from ethereumjs-util, whose code is not among the sources
    at hand.  The spec asks of the right variant that the slice is
    "right-padded with zero bytes until it is exactly length bytes", and
    of the left variant that the value is left-padded "with zero bytes
    to 32 bytes" with a result of "exactly 32 bytes".  Both go through
    one [setLength]: a zero buffer of the requested length receives a
    copy of a shorter message at its start (right) or at its end (left);
    a message that is not shorter is cut to the requested length, from
    its start (right) or from its end (left). *)
Definition zeros (bytes : Z) : result Buffer := Buf.alloc bytes.

Definition setLength (msg : Buffer) (length : Z) (right : bool)
  : result Buffer :=
  buf <- zeros length ;;
  if right then
    if Buf.length msg <? length
    then ret (msg ++ skipn (List.length msg) buf)
    else ret (Buf.slice msg 0 length)
  else
    if Buf.length msg <? length
    then ret (firstn (Z.to_nat (length - Buf.length msg)) buf ++ msg)
    else ret (Buf.slice msg (- length) (Buf.length msg)).

Definition setLengthLeft (msg : Buffer) (length : Z) : result Buffer :=
  setLength msg length false.

Definition setLengthRight (msg : Buffer) (length : Z) : result Buffer :=
  setLength msg length true.

Definition setLengthLeftStorage (value : Buffer) : result Buffer :=
  z <- Buf.alloc (Buf.length value) ;;
  if Buf.equals value z then
    (* return the empty buffer (the value is zero) *)
    Buf.alloc 0
  else
    setLengthLeft value 32.

Definition getDataSlice (data : Buffer) (offset length : Z)
  : result Buffer :=
  let len := Buf.length data in
  let offset := if offset >? len then len else offset in
  let end_ := offset + length in
  let end_ := if end_ >? len then len else end_ in
  start <- BN.toNumber offset ;;
  stop <- BN.toNumber end_ ;;
  let data := Buf.slice data start stop in
  (* Right-pad with zeros to fill dataLength bytes *)
  size <- BN.toNumber length ;;
  setLengthRight data size.

(** ** The environment: protocol parameters, run state, gas ledger *)

(** [Common] is consumed through two queries only: the gas-price table
    [param(topic, name)] and the fork test [gteHardfork(name)]. *)
Record Common : Type := {
  param : string -> string -> Z;
  gteHardfork : string -> bool
}.

(** Modelled from the spec: the memory buffer of a run state is not
    among the sources; the spec lists its accessors [extend(offset,
    length)] and [write(offset, length, data)].  The model keeps the
    calls the buffer has received, oldest first. *)
Inductive MemCall : Type :=
| MemExtend (offset size : Z)
| MemWrite (offset size : Z) (value : Buffer).

Definition Memory : Type := list MemCall.

(** Modelled from the spec: the environment interface [eei] is not among
    the sources.  Of it the spec fixes the gas ledger, "useGas(amount,
    reason) -> fails with OutOfGas if amount > gasLeft;
    refundGas(amount, reason)", and the accessor "getReturnData() ->
    bytes". *)
Record EEI : Type := {
  gasLeft : Z;
  gasRefund : Z;
  getReturnData : Buffer
}.

Record RunState : Type := {
  programCounter : Z;
  memory : Memory;
  memoryWordCount : Z;
  highestMemCost : Z;
  validJumps : list Z;
  validJumpSubs : list Z;
  eei : EEI
}.

Definition set_eei (e : EEI) (rs : RunState) : RunState :=
  {| programCounter := programCounter rs; memory := memory rs;
     memoryWordCount := memoryWordCount rs;
     highestMemCost := highestMemCost rs; validJumps := validJumps rs;
     validJumpSubs := validJumpSubs rs; eei := e |}.

Definition set_memory (m : Memory) (rs : RunState) : RunState :=
  {| programCounter := programCounter rs; memory := m;
     memoryWordCount := memoryWordCount rs;
     highestMemCost := highestMemCost rs; validJumps := validJumps rs;
     validJumpSubs := validJumpSubs rs; eei := eei rs |}.

Definition set_memoryWordCount (n : Z) (rs : RunState) : RunState :=
  {| programCounter := programCounter rs; memory := memory rs;
     memoryWordCount := n;
     highestMemCost := highestMemCost rs; validJumps := validJumps rs;
     validJumpSubs := validJumpSubs rs; eei := eei rs |}.

Definition set_highestMemCost (c : Z) (rs : RunState) : RunState :=
  {| programCounter := programCounter rs; memory := memory rs;
     memoryWordCount := memoryWordCount rs;
     highestMemCost := c; validJumps := validJumps rs;
     validJumpSubs := validJumpSubs rs; eei := eei rs |}.

(** A function of the source that takes [runState] and mutates it: the
    state after the call is returned also when the call throws, as the
    mutations made before a [throw] stay in the object. *)
Definition Run (A : Type) : Type := RunState -> result A * RunState.

#[export] Instance Monad_Run : Monad Run := {
  ret := fun A a rs => (Ok a, rs);
  bind := fun A B c k rs =>
    match c rs with
    | (Ok a, rs') => k a rs'
    | (Throw e, rs') => (Throw e, rs')
    end
}.

Definition get : Run RunState := fun rs => (Ok rs, rs).
Definition modify (f : RunState -> RunState) : Run unit :=
  fun rs => (Ok tt, f rs).
Definition lift {A : Type} (r : result A) : Run A := fun rs => (r, rs).

Definition useGas (amount : Z) : Run unit := fun rs =>
  if amount >? gasLeft (eei rs) then (Throw OutOfGas, rs)
  else
    (Ok tt,
     set_eei {| gasLeft := gasLeft (eei rs) - amount;
                gasRefund := gasRefund (eei rs);
                getReturnData := getReturnData (eei rs) |} rs).

Definition refundGas (amount : Z) : Run unit := fun rs =>
  (Ok tt,
   set_eei {| gasLeft := gasLeft (eei rs);
              gasRefund := gasRefund (eei rs) + amount;
              getReturnData := getReturnData (eei rs) |} rs).

Definition memory_extend (offset size : Z) : Run unit :=
  modify (fun rs => set_memory (memory rs ++ [MemExtend offset size]) rs).

Definition memory_write (offset size : Z) (value : Buffer) : Run unit :=
  modify (fun rs => set_memory (memory rs ++ [MemWrite offset size value]) rs).

(** ** Gas accounting *)

Definition maxCallGas (gasLimit gasLeft : Z) (runState : RunState)
  (common : Common) : Z :=
  let isTangerineWhistleOrLater := gteHardfork common "tangerineWhistle" in
  if isTangerineWhistleOrLater then
    let gasAllowed := gasLeft - BN.divn gasLeft 64 in
    if gasLimit >? gasAllowed then gasAllowed else gasLimit
  else
    gasLimit.

Definition subMemUsage (offset length : Z) (common : Common) : Run unit :=
  (* YP (225): access with zero length will not extend the memory *)
  if length =? 0 then ret tt else
  newMemoryWordCount <- lift (divCeil (offset + length) 32) ;;
  runState <- get ;;
  if newMemoryWordCount >=? memoryWordCount runState then ret tt else
  (* [words] is the bigint that [divCeil] returned; [fee] and
     [quadCoeff] are [BN]s *)
  let words := newMemoryWordCount in
  let fee := param common "gasPrices" "memory" in
  let quadCoeff := param common "gasPrices" "quadCoeffDiv" in
  (* words * 3 + words ^2 / 512 *)
  linear <- lift (BigInt.call_mul words fee) ;;
  square <- lift (BigInt.call_mul words words) ;;
  quad <- lift (BN.div square quadCoeff) ;;
  let cost := linear + quad in
  (if cost >? highestMemCost runState then
     useGas (cost - highestMemCost runState) ;;
     modify (set_highestMemCost cost)
   else ret tt) ;;
  modify (set_memoryWordCount newMemoryWordCount).

Definition writeCallOutput (outOffset outLength : Z) : Run unit :=
  runState <- get ;;
  let returnData := getReturnData (eei runState) in
  if Buf.length returnData >? 0 then
    memOffset <- lift (BN.toNumber outOffset) ;;
    dataLength <- lift (BN.toNumber outLength) ;;
    let dataLength :=
      if Buf.length returnData <? dataLength
      then Buf.length returnData else dataLength in
    data <- lift (getDataSlice returnData 0 dataLength) ;;
    memory_extend memOffset dataLength ;;
    memory_write memOffset dataLength data
  else ret tt.

(** The truth value JavaScript gives a number used as a condition. *)
Definition truthy (n : Z) : bool := negb (n =? 0).

Section Sstore.

(** [adjustSstoreGasEIP2929] is imported from [./EIP2929], which is not
    among the sources: it is a parameter of the storage charger, read
    as a function of the run state, the key, the default cost, the
    cost name and the protocol parameters. *)
Variable adjustSstoreGasEIP2929 :
  RunState -> Buffer -> Z -> string -> Common -> Z.

Definition updateSstoreGas (currentStorage value keyBuf : Buffer)
  (common : Common) : Run unit :=
  let sstoreResetCost := param common "gasPrices" "sstoreReset" in
  if ((Buf.length value =? 0) && negb (truthy (Buf.length currentStorage)))
     || (negb (Buf.length value =? 0) && truthy (Buf.length currentStorage))
  then
    runState <- get ;;
    useGas (adjustSstoreGasEIP2929 runState keyBuf sstoreResetCost "reset" common)
  else if (Buf.length value =? 0) && truthy (Buf.length currentStorage)
  then
    runState <- get ;;
    useGas (adjustSstoreGasEIP2929 runState keyBuf sstoreResetCost "reset" common) ;;
    refundGas (param common "gasPrices" "sstoreRefund")
  else if negb (Buf.length value =? 0) && negb (truthy (Buf.length currentStorage))
  then
    useGas (param common "gasPrices" "sstoreSet")
  else ret tt.

End Sstore.

(** ** The memory charger as the specification words it

    The specification describes the memory-expansion charger step by
    step; [chargeMemoryExpansion] follows those words, to be compared
    with [subMemUsage]: no charge when the new word count is at most the
    current one, otherwise the cost of the new word count is computed,
    the positive difference to the highest cost so far is charged, and
    both fields are raised. *)
Definition chargeMemoryExpansion (offset length : Z) (params : Common)
  : Run unit :=
  if length =? 0 then ret tt else
  newWordCount <- lift (divCeil (offset + length) 32) ;;
  context <- get ;;
  if newWordCount <=? memoryWordCount context then ret tt else
  let linearFee := param params "gasPrices" "memory" in
  let quadraticCoeffDivisor := param params "gasPrices" "quadCoeffDiv" in
  let totalCost :=
    newWordCount * linearFee
    + (newWordCount * newWordCount) / quadraticCoeffDivisor in
  let delta := totalCost - highestMemCost context in
  (if delta >? 0 then
     useGas delta ;;
     modify (set_highestMemCost totalCost)
   else ret tt) ;;
  modify (set_memoryWordCount newWordCount).

(** A frame's calls to the memory charger, in order; the first
    exception ends the frame. *)
Fixpoint subMemUsageAll (calls : list (Z * Z)) (common : Common)
  : Run unit :=
  match calls with
  | [] => ret tt
  | (offset, length) :: calls' =>
      subMemUsage offset length common ;;
      subMemUsageAll calls' common
  end.

(** ** Addresses, names and jump destinations *)

(** The [BN] operations that meet buffers. *)
Module BNBuffer.

(** [a.and(b)]: bn.js asserts that neither operand is negative. *)
Definition and (a b : Z) : result Z :=
  if (a <? 0) || (b <? 0) then Throw AssertionError else Ok (Z.land a b).

(** [a.byteLength()]: the bytes the magnitude of [a] needs, none for 0. *)
Definition byteLength (a : Z) : Z :=
  if a =? 0 then 0 else Z.log2 (Z.abs a) / 8 + 1.

(** One byte of a buffer from a number in [0, 255]. *)
Definition byteOf (z : Z) : byte :=
  match Byte.of_N (Z.to_N z) with
  | Some b => b
  | None => x00
  end.

(** The [n] low bytes of [a], most significant first: the loop of
    [toArrayLike] takes [a.andln(0xff)], shifts [a] right by 8 bits and
    fills the buffer from its end. *)
Fixpoint beBytes (n : nat) (a : Z) : Buffer :=
  match n with
  | O => []
  | S n' => beBytes n' (Z.shiftr a 8) ++ [byteOf (Z.land a 255)]
  end.

(** [a.toArrayLike(Buffer, 'be', length)]: a length of 0 asks for as
    many bytes as [a] needs, and at least one; the magnitude of [a] must
    fit in the requested length. *)
Definition toArrayLike (a : Z) (length : Z) : result Buffer :=
  let byteLength := byteLength a in
  let reqLength := if length =? 0 then Z.max 1 byteLength else length in
  if reqLength <? byteLength then Throw AssertionError
  else if reqLength <=? 0 then Throw AssertionError
  else Ok (beBytes (Z.to_nat reqLength) (Z.abs a)).

End BNBuffer.

(** [new BN(1).shln(160).subn(1)] *)
Definition MASK_160 : Z := Z.shiftl 1 160 - 1.

(** [addressToBuffer]: the argument is a [BN] or a [Buffer]. *)
Definition addressToBuffer (address : Z + Buffer) : result Buffer :=
  match address with
  | inr buf => ret buf
  | inl a =>
      masked <- BNBuffer.and a MASK_160 ;;
      BNBuffer.toArrayLike masked 20
  end.

(** [buffer.toString('hex')]: two lower-case digits for each byte. *)
Definition hexDigit (n : N) : ascii :=
  match n with
  | 0%N => "0" | 1%N => "1" | 2%N => "2" | 3%N => "3"
  | 4%N => "4" | 5%N => "5" | 6%N => "6" | 7%N => "7"
  | 8%N => "8" | 9%N => "9" | 10%N => "a" | 11%N => "b"
  | 12%N => "c" | 13%N => "d" | 14%N => "e" | _ => "f"
  end%char.

Definition hexOfByte (b : byte) : string :=
  let n := Byte.to_N b in
  String (hexDigit (n / 16)) (String (hexDigit (n mod 16)) EmptyString).

Fixpoint toHex (b : Buffer) : string :=
  match b with
  | [] => EmptyString
  | x :: b' => (hexOfByte x ++ toHex b')%string
  end.

Definition short (buffer : Buffer) : string :=
  let MAX_LENGTH := 50%nat in
  let bufferStr := toHex buffer in
  if (String.length bufferStr <=? MAX_LENGTH)%nat then bufferStr
  else (substring 0 MAX_LENGTH bufferStr ++ "...")%string.

(** A JavaScript number that is an integer, appended to a string: its
    decimal digits, after a minus sign when it is negative.  The numbers
    printed here are differences of an opcode byte and a constant. *)
Definition numberToString (n : Z) : string :=
  NilZero.string_of_int (Z.to_int n).

Definition getFullname (code : Z) (name : string) : string :=
  if String.eqb name "LOG" then (name ++ numberToString (code - 0xa0))%string
  else if String.eqb name "PUSH" then (name ++ numberToString (code - 0x5f))%string
  else if String.eqb name "DUP" then (name ++ numberToString (code - 0x7f))%string
  else if String.eqb name "SWAP" then (name ++ numberToString (code - 0x8f))%string
  else name.

(** [array.indexOf(x)]: the first index that holds [x], or -1. *)
Fixpoint indexOfFrom (l : list Z) (x : Z) (i : Z) : Z :=
  match l with
  | [] => -1
  | y :: l' => if y =? x then i else indexOfFrom l' x (i + 1)
  end.

Definition indexOf (l : list Z) (x : Z) : Z := indexOfFrom l x 0.

Definition jumpIsValid (runState : RunState) (dest : Z) : bool :=
  negb (indexOf (validJumps runState) dest =? -1).

Definition jumpSubIsValid (runState : RunState) (dest : Z) : bool :=
  negb (indexOf (validJumpSubs runState) dest =? -1).

(** ** Sample environments *)

(** The gas prices the source's comments and the specification's
    scenarios use. *)
Definition samplePrices (topic name : string) : Z :=
  if String.eqb topic "gasPrices" then
    if String.eqb name "memory" then 3
    else if String.eqb name "quadCoeffDiv" then 512
    else if String.eqb name "sstoreSet" then 20000
    else if String.eqb name "sstoreReset" then 5000
    else if String.eqb name "sstoreRefund" then 15000
    else 0
  else 0.

(** Fork names in their order of activation. *)
Definition hardforks : list string :=
  ["chainstart"; "homestead"; "dao"; "tangerineWhistle"; "spuriousDragon";
   "byzantium"; "constantinople"; "petersburg"; "istanbul";
   "muirGlacier"; "berlin"]%string.

Fixpoint forkIndex (name : string) (l : list string) : nat :=
  match l with
  | [] => 0
  | x :: l' => if String.eqb x name then 0 else S (forkIndex name l')
  end.

(** Modelled from the spec: "isAtLeast(forkName) -> boolean, with fork
    names totally ordered by activation sequence"; the protocol
    parameter provider itself is not among the sources. *)
Definition commonAt (hardfork : string) : Common :=
  {| param := samplePrices;
     gteHardfork := fun name =>
       (forkIndex name hardforks <=? forkIndex hardfork hardforks)%nat |}.

(** A run state with the given gas, word count and highest memory cost,
    and the given buffer of return data. *)
Definition frame (gas words cost : Z) (ret : Buffer) : RunState :=
  {| programCounter := 0; memory := []; memoryWordCount := words;
     highestMemCost := cost; validJumps := []; validJumpSubs := [];
     eei := {| gasLeft := gas; gasRefund := 0; getReturnData := ret |} |}.

(** A run state with the given lists of jump destinations. *)
Definition jumpFrame (jumps subs : list Z) : RunState :=
  {| programCounter := 0; memory := []; memoryWordCount := 0;
     highestMemCost := 0; validJumps := jumps; validJumpSubs := subs;
     eei := {| gasLeft := 0; gasRefund := 0; getReturnData := [] |} |}.

(** The adjustment of a chain on which EIP-2929 is not active: the
    default cost comes back unchanged. *)
Definition adjustInactive (runState : RunState) (key : Buffer)
  (defaultCost : Z) (costName : string) (common : Common) : Z :=
  defaultCost.

(** ** Vocabulary of the properties *)

(** Every byte of the buffer is zero. *)
Definition allZero (b : Buffer) : bool := forallb (Byte.eqb x00) b.

(** [r] is [value] with zero bytes in front. *)
Definition leftPadded (r value : Buffer) : Prop :=
  exists k : nat, r = repeat x00 k ++ value.

(** The number of bytes the [write] calls of a memory log cover. *)
Fixpoint bytesWritten (m : Memory) : Z :=
  match m with
  | [] => 0
  | MemExtend _ _ :: m' => bytesWritten m'
  | MemWrite _ size _ :: m' => size + bytesWritten m'
  end.

(** The gas taken from, and the refund granted to, a run state between
    two of its snapshots. *)
Definition charged (before after : RunState) : Z :=
  gasLeft (eei before) - gasLeft (eei after).

Definition refunded (before after : RunState) : Z :=
  gasRefund (eei after) - gasRefund (eei before).

(** The number a buffer holds, most significant byte first. *)
Definition beValue (b : Buffer) : Z :=
  fold_left (fun acc x => acc * 256 + Z.of_N (Byte.to_N x)) b 0.

(** [r] is zero or has the sign of [b]. *)
Definition zero_or_sign_of (r b : Z) : Prop :=
  r = 0 \/ Z.sgn r = Z.sgn b.

(** The unsigned 256-bit integers. *)
Definition uint256 (x : Z) : Prop := 0 <= x < 2 ^ 256.

(** * Properties *)

Example mod_5_3 : mod_ 5 3 = Ok 2. Proof. reflexivity. Qed.
Example mod_m5_3 : mod_ (-5) 3 = Ok 1. Proof. reflexivity. Qed.
Example mod_5_m3 : mod_ 5 (-3) = Ok 2. Proof. reflexivity. Qed.
Example mod_m5_m3 : mod_ (-5) (-3) = Ok (-5). Proof. reflexivity. Qed.
Example mod_5_0 : mod_ 5 0 = Throw RangeError. Proof. reflexivity. Qed.
Example divCeil_33_32 : divCeil 33 32 = Ok 2. Proof. reflexivity. Qed.
Example divCeil_64_32 : divCeil 64 32 = Ok 2. Proof. reflexivity. Qed.
Example divCeil_0_32 : divCeil 0 32 = Ok 0. Proof. reflexivity. Qed.
Example divCeil_m33_32 : divCeil (-33) 32 = Ok (-2). Proof. reflexivity. Qed.
Example fromTwos_1 : fromTwos 1 = 2 ^ 256 - 1. Proof. reflexivity. Qed.
Example fromTwos_0 : fromTwos 0 = 0. Proof. reflexivity. Qed.
Example toTwos_1 : toTwos 1 = 2 ^ 256 - 1. Proof. reflexivity. Qed.
Example toTwos_0 : toTwos 0 = 2 ^ 256. Proof. reflexivity. Qed.

(** ** Arithmetic *)

Section Arithmetic.

Lemma bigint_rem_ok (a b : Z) :
  b <> 0 -> BigInt.rem a b = Ok (Z.rem a b).
Proof.
  intros Hb. unfold BigInt.rem.
  destruct (Z.eqb_spec b 0); [contradiction | reflexivity].
Qed.

Lemma bigint_div_ok (a b : Z) :
  b <> 0 -> BigInt.div a b = Ok (Z.quot a b).
Proof.
  intros Hb. unfold BigInt.div.
  destruct (Z.eqb_spec b 0); [contradiction | reflexivity].
Qed.

(** With a positive modulus, [mod] is the floor modulo of [Z]. *)
Lemma mod_pos_floor (a b : Z) :
  0 < b -> mod_ a b = Ok (a mod b).
Proof.
  intros Hb. unfold mod_. rewrite bigint_rem_ok by lia. cbn.
  f_equal.
  pose proof (Z.quot_rem' a b) as Hqr.
  assert (b <> 0) as Hb0 by lia.
  pose proof (Z.rem_bound_abs a b Hb0) as Habs.
  destruct (Z.ltb_spec (Z.rem a b) 0) as [Hneg | Hnn].
  - apply Z.mod_unique with (q := Z.quot a b - 1); lia.
  - apply Z.mod_unique with (q := Z.quot a b); lia.
Qed.

(** On non-negative [a] and positive [b], [divCeil] is the ceiling of
    the quotient, written with the floor operations of [Z]. *)
Lemma divCeil_nonneg (a b : Z) :
  0 <= a -> 0 < b ->
  divCeil a b = Ok (if a mod b =? 0 then a / b else a / b + 1).
Proof.
  intros Ha Hb. unfold divCeil.
  rewrite bigint_div_ok by lia. rewrite mod_pos_floor by lia. cbn.
  rewrite Z.quot_div_nonneg by lia.
  destruct (a mod b =? 0); [reflexivity |].
  assert (0 <= a / b) by (apply Z.div_pos; lia).
  destruct (Z.ltb_spec (a / b) 0); [lia | reflexivity].
Qed.

End Arithmetic.

(** C5 (as amended): for every integer [a] and every [b > 0], [mod(a, b)]
    returns the floor modulo of [a] by [b]: a value in [0, b), hence
    never negative, and zero or of the sign of [b]. *)
Theorem mod_floor_positive_modulus (a b : Z) :
  0 < b ->
  exists r, mod_ a b = Ok r /\ r = a mod b /\ 0 <= r < b /\
            zero_or_sign_of r b.
Proof.
  intros Hb. exists (a mod b).
  pose proof (Z.mod_pos_bound a b Hb) as Hbound.
  repeat split; try lia.
  - now apply mod_pos_floor.
  - unfold zero_or_sign_of.
    destruct (Z.eq_dec (a mod b) 0) as [Hz | Hnz]; [now left | right].
    rewrite (Z.sgn_pos b) by lia. apply Z.sgn_pos. lia.
Qed.

Lemma mod_floor_positive_modulus_witness :
  0 < 3 /\
  exists r, mod_ (-5) 3 = Ok r /\ r = (-5) mod 3 /\ 0 <= r < 3 /\
            zero_or_sign_of r 3.
Proof.
  split; [lia | apply (mod_floor_positive_modulus (-5) 3); lia].
Defined.

(** C5 (as stated) fails under a negative modulus: [mod(5, -3)] is [2],
    which is neither zero nor negative. *)
Lemma mod_negative_modulus_sign :
  -3 <> 0 /\ mod_ 5 (-3) = Ok 2 /\ ~ zero_or_sign_of 2 (-3).
Proof.
  split; [lia |]. split; [reflexivity |].
  unfold zero_or_sign_of. cbn. intros [H | H]; discriminate H.
Qed.

(** C8: for every non-negative [a] and positive [b], [divCeil(a, b)]
    returns a [q] with [q * b >= a] and [(q - 1) * b < a]. *)
Theorem divCeil_bounds (a b : Z) :
  0 <= a -> 0 < b ->
  exists q, divCeil a b = Ok q /\ q * b >= a /\ (q - 1) * b < a.
Proof.
  intros Ha Hb. rewrite divCeil_nonneg by assumption.
  pose proof (Z.div_mod a b ltac:(lia)) as Hdm.
  pose proof (Z.mod_pos_bound a b Hb) as Hbound.
  destruct (Z.eqb_spec (a mod b) 0) as [Hz | Hnz];
    eexists; (split; [reflexivity |]); nia.
Qed.

Lemma divCeil_bounds_witness :
  0 <= 33 /\ 0 < 32 /\
  exists q, divCeil 33 32 = Ok q /\ q * 32 >= 33 /\ (q - 1) * 32 < 33.
Proof.
  split; [lia |]. split; [lia |]. apply (divCeil_bounds 33 32); lia.
Defined.

(** ** Two's complement *)

Section Twos.

Let M : Z := 2 ^ 256.

Lemma fromTwos_neg (x : Z) : fromTwos x = (- x) mod 2 ^ 256.
Proof.
  unfold fromTwos, BigInt.asUintN, BigInt.not, Z.lnot.
  replace (Z.pred (- (x - 1))) with (- x) by lia. reflexivity.
Qed.

Lemma toTwos_neg (x : Z) : toTwos x = (- x - 1) mod 2 ^ 256 + 1.
Proof.
  unfold toTwos, BigInt.asUintN, BigInt.not, Z.lnot.
  replace (Z.pred (- x)) with (- x - 1) by lia. reflexivity.
Qed.

(** Away from zero the two conversions are inverse to each other. *)
Lemma twos_roundtrip_nonzero (x : Z) :
  uint256 x -> x <> 0 -> toTwos (fromTwos x) = x.
Proof.
  unfold uint256. intros Hx Hnz.
  rewrite toTwos_neg, fromTwos_neg.
  fold M in Hx |- *.
  assert (0 < M) as HM by (subst M; apply Z.pow_pos_nonneg; lia).
  assert ((- x) mod M = M - x) as Hfrom.
  { symmetry. apply Z.mod_unique with (q := -1); lia. }
  rewrite Hfrom.
  assert ((- (M - x) - 1) mod M = x - 1) as Hto.
  { symmetry. apply Z.mod_unique with (q := -1); lia. }
  rewrite Hto. lia.
Qed.

(** The pattern of the minimum negative value is a fixed point of
    [fromTwos], and it travels round unchanged. *)
Lemma twos_roundtrip_min_negative :
  fromTwos (2 ^ 255) = 2 ^ 255 /\ toTwos (fromTwos (2 ^ 255)) = 2 ^ 255.
Proof. split; reflexivity. Qed.

End Twos.

(** C4 at its failing input: the pattern [0] does not travel round.
    [fromTwos 0] is [0], and [toTwos 0] is [2^256], which is not a
    256-bit pattern any more: the [+ 1n] of [toTwos] is applied after
    the reduction to 256 bits. *)
Theorem twos_roundtrip_zero :
  uint256 0 /\ fromTwos 0 = 0 /\
  toTwos (fromTwos 0) = 2 ^ 256 /\ toTwos (fromTwos 0) <> 0 /\
  ~ uint256 (toTwos (fromTwos 0)).
Proof.
  unfold uint256.
  assert (toTwos (fromTwos 0) = 2 ^ 256) as H by reflexivity.
  rewrite H. repeat split; try reflexivity; try lia.
Qed.

(** ** Call gas *)

(** C6: before tangerineWhistle [maxCallGas] returns the requested
    [gasLimit] unchanged, whatever [gasLeft] is; from tangerineWhistle
    on it returns the smaller of [gasLimit] and
    [gasLeft - floor(gasLeft / 64)], for a gas counter that is not
    negative. *)
Theorem maxCallGas_spec (gasLimit gasLeft : Z) (runState : RunState)
  (common : Common) :
  (gteHardfork common "tangerineWhistle" = false ->
   maxCallGas gasLimit gasLeft runState common = gasLimit) /\
  (gteHardfork common "tangerineWhistle" = true -> 0 <= gasLeft ->
   maxCallGas gasLimit gasLeft runState common
   = Z.min gasLimit (gasLeft - gasLeft / 64)).
Proof.
  unfold maxCallGas, BN.divn. split.
  - intros ->. reflexivity.
  - intros -> Hgas. rewrite Z.quot_div_nonneg by lia.
    destruct (Z.gtb_spec gasLimit (gasLeft - gasLeft / 64)); lia.
Qed.

Lemma maxCallGas_spec_witness :
  (gteHardfork (commonAt "homestead") "tangerineWhistle" = false /\
   maxCallGas 5000 1000 (frame 1000 0 0 []) (commonAt "homestead") = 5000) /\
  (gteHardfork (commonAt "berlin") "tangerineWhistle" = true /\
   0 <= 1000000 /\
   maxCallGas 990000 1000000 (frame 1000000 0 0 []) (commonAt "berlin")
   = 984375).
Proof.
  split.
  - split; [reflexivity |].
    apply (maxCallGas_spec 5000 1000 (frame 1000 0 0 []) (commonAt "homestead")).
    reflexivity.
  - split; [reflexivity |]. split; [lia |].
    rewrite (proj2 (maxCallGas_spec 990000 1000000 (frame 1000000 0 0 [])
                      (commonAt "berlin"))); [reflexivity | reflexivity | lia].
Defined.

Example maxCallGas_below_cap :
  maxCallGas 900000 1000000 (frame 1000000 0 0 []) (commonAt "tangerineWhistle")
  = 900000.
Proof. reflexivity. Qed.

(** ** Buffers *)

Section BufferLemmas.

Lemma skipn_repeat {A : Type} (x : A) (k n : nat) :
  skipn k (repeat x n) = repeat x (n - k).
Proof.
  revert k. induction n as [| n IH]; intros [| k]; cbn; auto.
Qed.

Lemma firstn_repeat {A : Type} (x : A) (k n : nat) :
  (k <= n)%nat -> firstn k (repeat x n) = repeat x k.
Proof.
  revert k. induction n as [| n IH]; intros [| k] Hk; cbn; auto.
  - lia.
  - f_equal. apply IH. lia.
Qed.

Lemma buf_length_nonneg (b : Buffer) : 0 <= Buf.length b.
Proof. unfold Buf.length. lia. Qed.

Lemma buf_length_app (a b : Buffer) :
  Buf.length (a ++ b) = Buf.length a + Buf.length b.
Proof. unfold Buf.length. rewrite length_app. lia. Qed.

Lemma buf_length_zero (b : Buffer) : Buf.length b = 0 <-> b = [].
Proof.
  unfold Buf.length. split.
  - destruct b; [reflexivity | cbn; lia].
  - intros ->. reflexivity.
Qed.

Lemma alloc_ok (n : Z) :
  0 <= n -> Buf.alloc n = Ok (repeat x00 (Z.to_nat n)).
Proof.
  intros Hn. unfold Buf.alloc.
  destruct (Z.ltb_spec n 0); [lia | reflexivity].
Qed.

Lemma equals_cons (x y : byte) (a b : Buffer) :
  Buf.equals (x :: a) (y :: b) = Byte.eqb x y && Buf.equals a b.
Proof. reflexivity. Qed.

Lemma equals_eq (a b : Buffer) : Buf.equals a b = true <-> a = b.
Proof.
  revert b. induction a as [| x a IH]; intros [| y b];
    try (cbn; split; [discriminate | discriminate]);
    try (cbn; tauto).
  rewrite equals_cons, andb_true_iff, IH. split.
  - intros [Hxy ->]. apply byte_dec_bl in Hxy. now subst.
  - intros [= -> ->]. split; [now apply byte_dec_lb | reflexivity].
Qed.

Lemma allZero_cons (x : byte) (b : Buffer) :
  allZero (x :: b) = Byte.eqb x00 x && allZero b.
Proof. reflexivity. Qed.

Lemma allZero_repeat (b : Buffer) :
  allZero b = true <-> b = repeat x00 (List.length b).
Proof.
  induction b as [| x b IH]; [cbn; tauto |].
  rewrite allZero_cons, andb_true_iff, IH.
  change (repeat x00 (List.length (x :: b)))
    with (x00 :: repeat x00 (List.length b)).
  split.
  - intros [Hx <-]. apply byte_dec_bl in Hx. now subst.
  - intros [= -> Hb]. split; [reflexivity | exact Hb].
Qed.

Lemma clampIndex_id (len i : Z) :
  0 <= i <= len -> Buf.clampIndex len i = i.
Proof.
  intros Hi. unfold Buf.clampIndex.
  destruct (Z.ltb_spec i 0); lia.
Qed.

(** A slice between two indices that lie in the buffer, in order. *)
Lemma slice_within (b : Buffer) (s e : Z) :
  0 <= s <= e -> e <= Buf.length b ->
  Buf.slice b s e = firstn (Z.to_nat (e - s)) (skipn (Z.to_nat s) b).
Proof.
  intros Hs He. unfold Buf.slice.
  rewrite !clampIndex_id by lia. reflexivity.
Qed.

(** The slice that keeps the last [n] bytes of a buffer that has at
    least [n] of them. *)
Lemma slice_last (b : Buffer) (n : Z) :
  0 < n <= Buf.length b ->
  Buf.slice b (- n) (Buf.length b)
  = skipn (Z.to_nat (Buf.length b - n)) b.
Proof.
  intros Hn. unfold Buf.slice, Buf.clampIndex.
  destruct (Z.ltb_spec (- n) 0); [| lia].
  destruct (Z.ltb_spec (Buf.length b) 0); [lia |].
  rewrite Z.min_id, Z.max_l by lia.
  apply firstn_all2. rewrite length_skipn. unfold Buf.length in *. lia.
Qed.

(** [setLengthRight] on a message that is not longer than asked:
    zeros are added behind it. *)
Lemma setLengthRight_pad (msg : Buffer) (n : Z) :
  Buf.length msg <= n ->
  setLengthRight msg n
  = Ok (msg ++ repeat x00 (Z.to_nat n - List.length msg)).
Proof.
  intros Hn. pose proof (buf_length_nonneg msg) as Hlen.
  unfold setLengthRight, setLength, zeros.
  rewrite alloc_ok by lia. cbn.
  destruct (Z.ltb_spec (Buf.length msg) n) as [Hlt | Hge].
  - now rewrite skipn_repeat.
  - assert (Buf.length msg = n) as Heq by lia.
    rewrite slice_within by lia. cbn.
    unfold Buf.length in Heq.
    rewrite Z.sub_0_r, <- Heq, Nat2Z.id, firstn_all, Nat.sub_diag.
    now rewrite app_nil_r.
Qed.

(** [setLengthLeft] on a message shorter than asked: zeros are put in
    front of it. *)
Lemma setLengthLeft_pad (msg : Buffer) (n : Z) :
  Buf.length msg < n ->
  setLengthLeft msg n
  = Ok (repeat x00 (Z.to_nat (n - Buf.length msg)) ++ msg).
Proof.
  intros Hn. pose proof (buf_length_nonneg msg) as Hlen.
  unfold setLengthLeft, setLength, zeros.
  rewrite alloc_ok by lia. cbn.
  destruct (Z.ltb_spec (Buf.length msg) n) as [Hlt | Hge]; [| lia].
  rewrite firstn_repeat by lia. reflexivity.
Qed.

(** [setLengthLeft] on a message at least as long as asked: its last
    bytes are kept. *)
Lemma setLengthLeft_cut (msg : Buffer) (n : Z) :
  0 < n <= Buf.length msg ->
  setLengthLeft msg n = Ok (skipn (Z.to_nat (Buf.length msg - n)) msg).
Proof.
  intros Hn.
  unfold setLengthLeft, setLength, zeros.
  rewrite alloc_ok by lia. cbn.
  destruct (Z.ltb_spec (Buf.length msg) n) as [Hlt | Hge]; [lia |].
  now rewrite slice_last.
Qed.

Lemma toNumber_ok (a : Z) :
  Z.abs a < 2 ^ 53 -> BN.toNumber a = Ok a.
Proof.
  intros Ha. unfold BN.toNumber.
  destruct (Z.ltb_spec (Z.abs a) (2 ^ 53)); [reflexivity | lia].
Qed.

Lemma toNumber_throws (a : Z) :
  2 ^ 53 <= Z.abs a -> BN.toNumber a = Throw AssertionError.
Proof.
  intros Ha. unfold BN.toNumber.
  destruct (Z.ltb_spec (Z.abs a) (2 ^ 53)); [lia | reflexivity].
Qed.

(** What [getDataSlice] returns when its three conversions to a number
    pass: the window of [data] that starts at [offset] and has at most
    [length] bytes, followed by the zeros that fill it to [length]
    bytes.  The clamped offset and end are at most
    [min (offset + length) (length of data)]. *)
Lemma getDataSlice_window (data : Buffer) (offset length : Z) :
  0 <= offset -> 0 <= length < 2 ^ 53 ->
  Z.min (offset + length) (Buf.length data) < 2 ^ 53 ->
  let window :=
    firstn (Z.to_nat length) (skipn (Z.to_nat offset) data) in
  getDataSlice data offset length
  = Ok (window ++ repeat x00 (Z.to_nat length - List.length window)).
Proof.
  intros Ho Hl Hfit window. subst window.
  pose proof (buf_length_nonneg data) as Hlen.
  unfold getDataSlice.
  set (len := Buf.length data) in *.
  set (o := if offset >? len then len else offset).
  set (e := if o + length >? len then len else o + length).
  assert (0 <= o <= len /\ (o = offset \/ (o = len /\ len < offset)))
    as [Ho' Hoff].
  { subst o. destruct (Z.gtb_spec offset len); lia. }
  assert (o <= e <= len /\ (e = o + length \/ (e = len /\ len < o + length)))
    as [He' Hend].
  { subst e. destruct (Z.gtb_spec (o + length) len); lia. }
  assert (e <= Z.min (offset + length) len) as Hebound by lia.
  rewrite (toNumber_ok o), (toNumber_ok e), (toNumber_ok length) by lia.
  cbn [bind Monad_result].
  rewrite slice_within by (subst len; lia).
  assert (firstn (Z.to_nat (e - o)) (skipn (Z.to_nat o) data)
          = firstn (Z.to_nat length) (skipn (Z.to_nat offset) data))
    as Hwin.
  { assert (skipn (Z.to_nat o) data = skipn (Z.to_nat offset) data) as ->.
    { destruct Hoff as [-> | [-> Hlt]]; [reflexivity |].
      subst len. unfold Buf.length in *.
      rewrite !skipn_all2 by lia. reflexivity. }
    destruct Hend as [-> | [-> Hlt]].
    - do 2 f_equal. lia.
    - rewrite !firstn_all2; [reflexivity | |];
        rewrite length_skipn; subst len; unfold Buf.length in *; lia. }
  rewrite Hwin. apply setLengthRight_pad.
  unfold Buf.length. rewrite length_firstn. lia.
Qed.

(** With a length that does not fit a number, the clamped offset and end
    still convert and the conversion of the length throws. *)
Lemma getDataSlice_length_too_long (data : Buffer) (offset length : Z) :
  0 <= offset -> 2 ^ 53 <= length -> Buf.length data < 2 ^ 53 ->
  getDataSlice data offset length = Throw AssertionError.
Proof.
  intros Ho Hl Hdata.
  pose proof (buf_length_nonneg data) as Hlen.
  unfold getDataSlice.
  set (len := Buf.length data) in *.
  set (o := if offset >? len then len else offset).
  set (e := if o + length >? len then len else o + length).
  assert (0 <= o <= len) as Ho'
    by (subst o; destruct (Z.gtb_spec offset len); lia).
  assert (0 <= e <= len) as He'
    by (subst e; destruct (Z.gtb_spec (o + length) len); lia).
  rewrite (toNumber_ok o), (toNumber_ok e) by lia.
  cbn [bind Monad_result].
  rewrite toNumber_throws by lia. reflexivity.
Qed.

End BufferLemmas.

(** C7 (as amended): for every buffer [data] (its length a JavaScript
    number, below 2^53) and every non-negative [offset],
    [getDataSlice(data, offset, length)] returns, for every [length]
    with [0 <= length < 2^53], a buffer of exactly [length] bytes, all
    of them zero when [offset] is at or beyond the end of [data]; for a
    [length] of 2^53 or more the conversion of [length] to a number
    throws. *)
Theorem getDataSlice_length_zero (data : Buffer) (offset length : Z) :
  0 <= offset -> 0 <= length -> Buf.length data < 2 ^ 53 ->
  (length < 2 ^ 53 ->
   exists r, getDataSlice data offset length = Ok r /\
             Buf.length r = length /\
             (Buf.length data <= offset -> Forall (fun b => b = x00) r)) /\
  (2 ^ 53 <= length ->
   getDataSlice data offset length = Throw AssertionError).
Proof.
  intros Ho Hl Hdata. split.
  - intros Hfit. rewrite getDataSlice_window by lia.
    eexists. split; [reflexivity |]. split.
    + unfold Buf.length.
      rewrite length_app, repeat_length, length_firstn. lia.
    + intros Hout. unfold Buf.length in Hout.
      rewrite skipn_all2 by lia. rewrite firstn_nil. cbn [app].
      apply Forall_forall. intros b Hb. now apply repeat_spec in Hb.
  - intros Hlong. now apply getDataSlice_length_too_long.
Qed.

Lemma getDataSlice_length_zero_witness :
  0 <= 1 /\ 0 <= 4 /\ Buf.length [x0a; x0b; x0c] < 2 ^ 53 /\
  (4 < 2 ^ 53 /\
   exists r, getDataSlice [x0a; x0b; x0c] 1 4 = Ok r /\
             Buf.length r = 4 /\
             (Buf.length [x0a; x0b; x0c] <= 1 ->
              Forall (fun b => b = x00) r)) /\
  (2 ^ 53 <= 2 ^ 60 /\
   getDataSlice [x0a; x0b; x0c] 1 (2 ^ 60) = Throw AssertionError).
Proof.
  assert (Buf.length [x0a; x0b; x0c] < 2 ^ 53) as Hdata by reflexivity.
  split; [lia |]. split; [lia |]. split; [exact Hdata |]. split.
  - split; [reflexivity |].
    apply (getDataSlice_length_zero [x0a; x0b; x0c] 1 4); [lia | lia | exact Hdata |].
    reflexivity.
  - split; [discriminate |].
    apply (getDataSlice_length_zero [x0a; x0b; x0c] 1 (2 ^ 60));
      [lia | discriminate | exact Hdata |].
    discriminate.
Defined.

(** C7 (as stated) fails on a length that is not a JavaScript safe
    integer: with [length = 2^53] the call throws, where it should
    return 2^53 bytes. *)
Lemma getDataSlice_length_overflow :
  0 <= 0 /\ 0 <= 2 ^ 53 /\
  getDataSlice [x0a; x0b; x0c] 0 (2 ^ 53) = Throw AssertionError /\
  ~ (exists r, getDataSlice [x0a; x0b; x0c] 0 (2 ^ 53) = Ok r /\
               Buf.length r = 2 ^ 53).
Proof.
  assert (getDataSlice [x0a; x0b; x0c] 0 (2 ^ 53) = Throw AssertionError)
    as H by reflexivity.
  split; [lia |]. split; [discriminate |]. split; [exact H |].
  intros (r & Hr & _). rewrite H in Hr. discriminate Hr.
Qed.

Example getDataSlice_inside :
  getDataSlice [x0a; x0b; x0c] 1 4 = Ok [x0b; x0c; x00; x00].
Proof. reflexivity. Qed.

Example getDataSlice_beyond :
  getDataSlice [x0a; x0b; x0c] 7 2 = Ok [x00; x00].
Proof. reflexivity. Qed.

Lemma setLengthLeftStorage_zero (value : Buffer) :
  allZero value = true -> setLengthLeftStorage value = Ok [].
Proof.
  intros Hz. unfold setLengthLeftStorage.
  rewrite alloc_ok by apply buf_length_nonneg. cbn [bind Monad_result].
  unfold Buf.length at 1. rewrite Nat2Z.id.
  apply allZero_repeat in Hz.
  destruct (Buf.equals value (repeat x00 (List.length value))) eqn:Heq.
  - reflexivity.
  - apply equals_eq in Hz. congruence.
Qed.

Lemma setLengthLeftStorage_nonzero (value : Buffer) :
  allZero value = false ->
  setLengthLeftStorage value = setLengthLeft value 32.
Proof.
  intros Hz. unfold setLengthLeftStorage.
  rewrite alloc_ok by apply buf_length_nonneg. cbn [bind Monad_result].
  unfold Buf.length at 1. rewrite Nat2Z.id.
  destruct (Buf.equals value (repeat x00 (List.length value))) eqn:Heq.
  - apply equals_eq, allZero_repeat in Heq. congruence.
  - reflexivity.
Qed.

(** C9 (as amended): on a buffer whose bytes are all zero (the empty
    buffer too) [setLengthLeftStorage] returns the empty buffer; on any
    other buffer it returns exactly 32 bytes, which are the value with
    zero bytes in front when the value has at most 32 bytes, and the
    last 32 bytes of the value when it has more. *)
Theorem setLengthLeftStorage_spec (value : Buffer) :
  (allZero value = true -> setLengthLeftStorage value = Ok []) /\
  (allZero value = false ->
   exists r, setLengthLeftStorage value = Ok r /\
             Buf.length r = 32 /\
             (Buf.length value <= 32 ->
              r = repeat x00 (Z.to_nat (32 - Buf.length value)) ++ value) /\
             (32 < Buf.length value ->
              r = skipn (Z.to_nat (Buf.length value - 32)) value)).
Proof.
  split; [apply setLengthLeftStorage_zero |].
  intros Hz. rewrite setLengthLeftStorage_nonzero by assumption.
  pose proof (buf_length_nonneg value) as Hlen.
  destruct (Z.lt_ge_cases (Buf.length value) 32) as [Hshort | Hlong].
  - rewrite setLengthLeft_pad by assumption.
    eexists. split; [reflexivity |]. split; [| split].
    + rewrite buf_length_app. unfold Buf.length in *.
      rewrite repeat_length. lia.
    + reflexivity.
    + lia.
  - rewrite setLengthLeft_cut by lia.
    eexists. split; [reflexivity |]. split; [| split].
    + unfold Buf.length in *. rewrite length_skipn. lia.
    + intros Hle. assert (Buf.length value = 32) as -> by lia.
      reflexivity.
    + reflexivity.
Qed.

Lemma setLengthLeftStorage_spec_witness :
  (allZero [x00; x00] = true /\ setLengthLeftStorage [x00; x00] = Ok []) /\
  (allZero [x01; x02] = false /\
   exists r, setLengthLeftStorage [x01; x02] = Ok r /\
             Buf.length r = 32 /\
             (Buf.length [x01; x02] <= 32 ->
              r = repeat x00 (Z.to_nat (32 - Buf.length [x01; x02]))
                  ++ [x01; x02]) /\
             (32 < Buf.length [x01; x02] ->
              r = skipn (Z.to_nat (Buf.length [x01; x02] - 32)) [x01; x02])).
Proof.
  split.
  - split; [reflexivity |].
    apply (setLengthLeftStorage_spec [x00; x00]). reflexivity.
  - split; [reflexivity |].
    apply (setLengthLeftStorage_spec [x01; x02]). reflexivity.
Defined.

(** C9 (as stated) fails on a value of more than 32 bytes: the 33 bytes
    [01 00 ... 00] are not all zero, and the result is 32 zero bytes,
    which is not that value with zeros in front. *)
Lemma setLengthLeftStorage_long_value :
  allZero (x01 :: repeat x00 32) = false /\
  setLengthLeftStorage (x01 :: repeat x00 32) = Ok (repeat x00 32) /\
  ~ leftPadded (repeat x00 32) (x01 :: repeat x00 32).
Proof.
  split; [reflexivity |]. split; [reflexivity |].
  intros [k Hk]. apply (f_equal (@List.length byte)) in Hk.
  rewrite length_app, !repeat_length in Hk. cbn in Hk. lia.
Qed.

Example setLengthLeftStorage_empty : setLengthLeftStorage [] = Ok [].
Proof. reflexivity. Qed.

(** ** Writing the output of a call *)

Lemma bytesWritten_app (m m' : Memory) :
  bytesWritten (m ++ m') = bytesWritten m + bytesWritten m'.
Proof.
  induction m as [| [o n | o n v] m IH]; cbn [app bytesWritten]; lia.
Qed.

Lemma set_memory_twice (m m' : Memory) (rs : RunState) :
  set_memory m' (set_memory m rs) = set_memory m' rs.
Proof. reflexivity. Qed.

(** A window that starts at the beginning of the data and does not
    reach beyond it needs no padding. *)
Lemma getDataSlice_prefix (data : Buffer) (n : Z) :
  0 <= n <= Buf.length data -> n < 2 ^ 53 ->
  getDataSlice data 0 n = Ok (firstn (Z.to_nat n) data).
Proof.
  intros Hn Hfit. rewrite getDataSlice_window by lia.
  cbn [Z.to_nat skipn]. rewrite length_firstn.
  unfold Buf.length in Hn.
  replace (Z.to_nat n - Nat.min (Z.to_nat n) (List.length data))%nat
    with 0%nat by lia.
  cbn [repeat]. now rewrite app_nil_r.
Qed.

(** C10 (as amended): [writeCallOutput] leaves the run state as it is
    when the return data is empty, whatever [outOffset] and [outLength]
    are; otherwise, when [outOffset] and [outLength] fit a JavaScript
    number (magnitude below 2^53) and [outLength] is not negative, it
    extends the memory for, and writes at [outOffset], the first
    [min(outLength, length of the return data)] bytes of the return
    data, and no padding; when one of the two does not fit, the
    conversion throws and the memory is neither extended nor written. *)
Theorem writeCallOutput_truncates (runState : RunState)
  (outOffset outLength : Z) :
  let returnData := getReturnData (eei runState) in
  let n := Z.min outLength (Buf.length returnData) in
  (returnData = [] ->
   writeCallOutput outOffset outLength runState = (Ok tt, runState)) /\
  (returnData <> [] ->
   Z.abs outOffset < 2 ^ 53 -> 0 <= outLength < 2 ^ 53 ->
   exists data after,
     writeCallOutput outOffset outLength runState = (Ok tt, after) /\
     after = set_memory (memory runState
                         ++ [MemExtend outOffset n; MemWrite outOffset n data])
               runState /\
     data = firstn (Z.to_nat n) returnData /\
     Buf.length data = n /\
     bytesWritten (memory after) = bytesWritten (memory runState) + n) /\
  (returnData <> [] ->
   2 ^ 53 <= Z.abs outOffset \/ 2 ^ 53 <= Z.abs outLength ->
   writeCallOutput outOffset outLength runState
   = (Throw AssertionError, runState)).
Proof.
  intros returnData n. subst returnData.
  unfold writeCallOutput, get. cbn [bind Monad_Run].
  pose proof (buf_length_nonneg (getReturnData (eei runState))) as Hlen.
  split; [| split].
  - intros ->. reflexivity.
  - intros Hne Hoff Hout.
    destruct (Z.gtb_spec (Buf.length (getReturnData (eei runState))) 0)
      as [Hpos | Hzero].
    2:{ exfalso. apply Hne, buf_length_zero. lia. }
    unfold lift.
    rewrite (toNumber_ok outOffset), (toNumber_ok outLength) by lia.
    set (d := if Buf.length (getReturnData (eei runState)) <? outLength
              then Buf.length (getReturnData (eei runState))
              else outLength).
    assert (d = n) as Hd.
    { subst d n.
      destruct (Z.ltb_spec (Buf.length (getReturnData (eei runState)))
                  outLength); lia. }
    rewrite Hd.
    rewrite getDataSlice_prefix by lia.
    unfold memory_extend, memory_write, modify. cbn [memory set_memory].
    rewrite <- app_assoc. cbn [app].
    eexists. eexists. split; [reflexivity |].
    split; [reflexivity |]. split; [reflexivity |]. split.
    + unfold Buf.length in *. rewrite length_firstn. lia.
    + cbn [memory set_memory]. rewrite bytesWritten_app.
      cbn [bytesWritten]. lia.
  - intros Hne Hbig.
    destruct (Z.gtb_spec (Buf.length (getReturnData (eei runState))) 0)
      as [Hpos | Hzero].
    2:{ exfalso. apply Hne, buf_length_zero. lia. }
    unfold lift.
    destruct (Z.lt_ge_cases (Z.abs outOffset) (2 ^ 53)) as [Hoff | Hoff].
    + rewrite (toNumber_ok outOffset) by exact Hoff.
      rewrite (toNumber_throws outLength) by lia. reflexivity.
    + rewrite (toNumber_throws outOffset) by exact Hoff. reflexivity.
Qed.

Lemma writeCallOutput_truncates_witness :
  (getReturnData (eei (frame 100 0 0 [])) = [] /\
   writeCallOutput 64 32 (frame 100 0 0 []) = (Ok tt, frame 100 0 0 [])) /\
  (getReturnData (eei (frame 100 0 0 [x0a; x0b])) <> [] /\
   Z.abs 64 < 2 ^ 53 /\ 0 <= 32 < 2 ^ 53 /\
   exists data after,
     writeCallOutput 64 32 (frame 100 0 0 [x0a; x0b]) = (Ok tt, after) /\
     after = set_memory [MemExtend 64 2; MemWrite 64 2 data]
               (frame 100 0 0 [x0a; x0b]) /\
     data = [x0a; x0b] /\
     Buf.length data = 2 /\
     bytesWritten (memory after) = 2) /\
  (getReturnData (eei (frame 100 0 0 [x0a; x0b])) <> [] /\
   (2 ^ 53 <= Z.abs 64 \/ 2 ^ 53 <= Z.abs (2 ^ 53)) /\
   writeCallOutput 64 (2 ^ 53) (frame 100 0 0 [x0a; x0b])
   = (Throw AssertionError, frame 100 0 0 [x0a; x0b])).
Proof.
  assert (Z.abs 64 < 2 ^ 53) as H64 by reflexivity.
  assert (0 <= 32 < 2 ^ 53) as H32 by (split; [discriminate | reflexivity]).
  assert (2 ^ 53 <= Z.abs 64 \/ 2 ^ 53 <= Z.abs (2 ^ 53)) as Hbig
    by (right; discriminate).
  split; [| split].
  - split; [reflexivity |].
    apply (writeCallOutput_truncates (frame 100 0 0 []) 64 32). reflexivity.
  - split; [discriminate |]. split; [exact H64 |]. split; [exact H32 |].
    apply (writeCallOutput_truncates (frame 100 0 0 [x0a; x0b]) 64 32);
      [discriminate | exact H64 | exact H32].
  - split; [discriminate |]. split; [exact Hbig |].
    apply (writeCallOutput_truncates (frame 100 0 0 [x0a; x0b]) 64 (2 ^ 53));
      [discriminate | exact Hbig].
Defined.

(** C10 (as stated) fails on an offset that is not a JavaScript safe
    integer: with one byte of return data, [outOffset = 2^53] and
    [outLength = 1], the conversion of the offset throws and no byte is
    written, where [min(outLength, length of the return data)] is 1. *)
Lemma writeCallOutput_offset_overflow :
  writeCallOutput (2 ^ 53) 1 (frame 100 0 0 [x0a])
  = (Throw AssertionError, frame 100 0 0 [x0a]) /\
  bytesWritten
    (memory (snd (writeCallOutput (2 ^ 53) 1 (frame 100 0 0 [x0a]))))
  = bytesWritten (memory (frame 100 0 0 [x0a])) /\
  Z.min 1 (Buf.length (getReturnData (eei (frame 100 0 0 [x0a])))) = 1.
Proof. repeat split; reflexivity. Qed.

(** ** The memory charger *)

Section MemoryCharger.

Variable common : Common.

Lemma divCeil_by_32 (a : Z) : exists q, divCeil a 32 = Ok q.
Proof.
  unfold divCeil, mod_.
  rewrite bigint_div_ok, bigint_rem_ok by lia.
  cbn [bind ret Monad_result].
  destruct (_ =? 0); eexists; reflexivity.
Qed.

Lemma subMemUsage_zero_length (offset : Z) (rs : RunState) :
  subMemUsage offset 0 common rs = (Ok tt, rs).
Proof. reflexivity. Qed.

(** A new word count at or above the current one returns at once: the
    path the source takes where an expansion is due. *)
Lemma subMemUsage_growth_ignored (offset length w : Z) (rs : RunState) :
  divCeil (offset + length) 32 = Ok w ->
  memoryWordCount rs <= w ->
  subMemUsage offset length common rs = (Ok tt, rs).
Proof.
  intros Hw Hle. unfold subMemUsage, get, lift.
  destruct (length =? 0); [reflexivity |].
  cbn [bind ret Monad_Run]. rewrite Hw.
  destruct (Z.geb_spec w (memoryWordCount rs)); [reflexivity | lia].
Qed.

(** A new word count below the current one goes on to [words.mul(fee)],
    which throws before anything is written. *)
Lemma subMemUsage_shrink_throws (offset length w : Z) (rs : RunState) :
  length <> 0 ->
  divCeil (offset + length) 32 = Ok w ->
  w < memoryWordCount rs ->
  subMemUsage offset length common rs = (Throw TypeError, rs).
Proof.
  intros Hl Hw Hlt. unfold subMemUsage, get, lift.
  destruct (Z.eqb_spec length 0); [contradiction |].
  cbn [bind ret Monad_Run]. rewrite Hw.
  destruct (Z.geb_spec w (memoryWordCount rs)); [lia | reflexivity].
Qed.

(** No path of [subMemUsage] writes to the run state. *)
Lemma subMemUsage_writes_nothing (offset length : Z) (rs : RunState) :
  snd (subMemUsage offset length common rs) = rs.
Proof.
  destruct (divCeil_by_32 (offset + length)) as [w Hw].
  destruct (Z.eq_dec length 0) as [-> | Hl]; [reflexivity |].
  destruct (Z.le_gt_cases (memoryWordCount rs) w) as [Hle | Hlt].
  - now rewrite (subMemUsage_growth_ignored _ _ _ _ Hw Hle).
  - now rewrite (subMemUsage_shrink_throws _ _ _ _ Hl Hw Hlt).
Qed.

Lemma subMemUsageAll_writes_nothing (calls : list (Z * Z))
  (rs : RunState) :
  snd (subMemUsageAll calls common rs) = rs.
Proof.
  induction calls as [| [offset length] calls IH]; [reflexivity |].
  cbn [subMemUsageAll bind Monad_Run].
  pose proof (subMemUsage_writes_nothing offset length rs) as Hone.
  destruct (subMemUsage offset length common rs) as [[[] | e] rs'];
    cbn [snd] in Hone; subst rs'; [exact IH | reflexivity].
Qed.

(** [highestMemCost] never decreases in a call. *)
Lemma subMemUsage_highestMemCost_mono (offset length : Z) (rs : RunState) :
  highestMemCost rs
  <= highestMemCost (snd (subMemUsage offset length common rs)).
Proof. rewrite subMemUsage_writes_nothing. lia. Qed.

(** [gasLeft] never increases in a call. *)
Lemma subMemUsage_gasLeft_antitone (offset length : Z) (rs : RunState) :
  gasLeft (eei (snd (subMemUsage offset length common rs)))
  <= gasLeft (eei rs).
Proof. rewrite subMemUsage_writes_nothing. lia. Qed.

End MemoryCharger.

(** C1 at its failing input, the specification's own scenario: a fresh
    frame (no memory word, no memory cost, 100 gas) touches the 32 bytes
    at offset 0 with a linear fee of 3 and a quadratic divisor of 512.
    The new word count, 1, is strictly greater than the current one, 0;
    the charger as the claim words it takes 3 gas and raises
    [highestMemCost] to 3 and [memoryWordCount] to 1, while
    [subMemUsage] returns with the frame untouched.  In the other
    direction, with two words counted, the charger as the claim words it
    returns with nothing changed, while [subMemUsage] passes its guard
    and throws a TypeError at [words.mul(fee)], with nothing changed
    either. *)
Theorem subMemUsage_expansion_not_charged :
  divCeil (0 + 32) 32 = Ok 1 /\
  chargeMemoryExpansion 0 32 (commonAt "berlin") (frame 100 0 0 [])
  = (Ok tt, frame 97 1 3 []) /\
  subMemUsage 0 32 (commonAt "berlin") (frame 100 0 0 [])
  = (Ok tt, frame 100 0 0 []) /\
  chargeMemoryExpansion 0 32 (commonAt "berlin") (frame 100 2 0 [])
  = (Ok tt, frame 100 2 0 []) /\
  subMemUsage 0 32 (commonAt "berlin") (frame 100 2 0 [])
  = (Throw TypeError, frame 100 2 0 []).
Proof. repeat split; reflexivity. Qed.

(** C2: across any finite sequence of calls of [subMemUsage] on one
    frame, [memoryWordCount] and [highestMemCost] never decrease: after
    each single call, from whatever run state it starts, and after the
    whole sequence, each field is at least what it was before.  (No path
    of the source writes either field: a zero length and the guard
    return, and past the guard [words.mul(fee)] throws first.) *)
Theorem subMemUsage_fields_never_decrease (common : Common)
  (calls : list (Z * Z)) (rs : RunState) :
  (forall offset length,
     memoryWordCount rs
     <= memoryWordCount (snd (subMemUsage offset length common rs)) /\
     highestMemCost rs
     <= highestMemCost (snd (subMemUsage offset length common rs))) /\
  memoryWordCount rs
  <= memoryWordCount (snd (subMemUsageAll calls common rs)) /\
  highestMemCost rs
  <= highestMemCost (snd (subMemUsageAll calls common rs)).
Proof.
  split.
  - intros offset length. rewrite subMemUsage_writes_nothing. lia.
  - rewrite subMemUsageAll_writes_nothing. lia.
Qed.

Example subMemUsage_two_words_kept :
  subMemUsageAll [(0, 32); (0, 64)] (commonAt "berlin") (frame 100 2 6 [])
  = (Throw TypeError, frame 100 2 6 []).
Proof. reflexivity. Qed.

(** ** The storage charger *)

Section StorageCharger.

Variable adjust : RunState -> Buffer -> Z -> string -> Common -> Z.
Variable common : Common.

Lemma useGas_enough (amount : Z) (rs : RunState) :
  amount <= gasLeft (eei rs) ->
  exists after, useGas amount rs = (Ok tt, after) /\
                charged rs after = amount /\ refunded rs after = 0 /\
                gasRefund (eei after) = gasRefund (eei rs).
Proof.
  intros Hgas. unfold useGas.
  destruct (Z.gtb_spec amount (gasLeft (eei rs))); [lia |].
  eexists. split; [reflexivity |].
  unfold charged, refunded. cbn. lia.
Qed.

Lemma useGas_short (amount : Z) (rs : RunState) :
  gasLeft (eei rs) < amount -> useGas amount rs = (Throw OutOfGas, rs).
Proof.
  intros Hgas. unfold useGas.
  destruct (Z.gtb_spec amount (gasLeft (eei rs))); [reflexivity | lia].
Qed.

(** The ledger calls of each of the four classes. *)
Lemma updateSstoreGas_calls (currentStorage value keyBuf : Buffer)
  (rs : RunState) :
  let reset :=
    adjust rs keyBuf (param common "gasPrices" "sstoreReset") "reset"
      common in
  updateSstoreGas adjust currentStorage value keyBuf common rs
  = match currentStorage, value with
    | [], [] => useGas reset rs
    | [], _ :: _ => useGas (param common "gasPrices" "sstoreSet") rs
    | _ :: _, [] =>
        (useGas reset ;;
         refundGas (param common "gasPrices" "sstoreRefund")) rs
    | _ :: _, _ :: _ => useGas reset rs
    end.
Proof.
  destruct currentStorage, value; reflexivity.
Qed.

End StorageCharger.

(** C3 (as amended): [updateSstoreGas] classifies by the emptiness of
    [currentStorage] and of the new [value] alone.  With [reset] the
    sstoreReset price as [adjustSstoreGasEIP2929] returns it for the
    cost name 'reset': (current empty, new empty) charges [reset] and
    refunds nothing; (current empty, new non-empty) charges sstoreSet;
    (current non-empty, new empty) charges [reset] and refunds
    sstoreRefund; (current non-empty, new non-empty) charges [reset]
    with no refund, equal values included.  A charge above the gas left
    throws OutOfGas and leaves the run state as it was. *)
Theorem updateSstoreGas_classification
  (adjust : RunState -> Buffer -> Z -> string -> Common -> Z)
  (common : Common) (currentStorage value keyBuf : Buffer)
  (rs : RunState) :
  let reset :=
    adjust rs keyBuf (param common "gasPrices" "sstoreReset")
      "reset"%string common in
  let sstoreSet := param common "gasPrices" "sstoreSet" in
  let sstoreRefund := param common "gasPrices" "sstoreRefund" in
  let '(price, refund) :=
    match currentStorage, value with
    | [], [] => (reset, 0)
    | [], _ :: _ => (sstoreSet, 0)
    | _ :: _, [] => (reset, sstoreRefund)
    | _ :: _, _ :: _ => (reset, 0)
    end in
  (price <= gasLeft (eei rs) ->
   exists after,
     updateSstoreGas adjust currentStorage value keyBuf common rs
     = (Ok tt, after) /\
     charged rs after = price /\ refunded rs after = refund) /\
  (gasLeft (eei rs) < price ->
   updateSstoreGas adjust currentStorage value keyBuf common rs
   = (Throw OutOfGas, rs)).
Proof.
  intros reset sstoreSet sstoreRefund.
  rewrite updateSstoreGas_calls. fold reset sstoreSet sstoreRefund.
  destruct currentStorage as [| c cs], value as [| v vs]; split;
    intros Hgas; cbn [bind Monad_Run];
    try (rewrite useGas_short by exact Hgas; reflexivity);
    destruct (useGas_enough _ rs Hgas) as (after & Huse & Hch & Hre & Hsame);
    rewrite Huse.
  - now exists after.
  - now exists after.
  - eexists. split; [reflexivity |].
    unfold refundGas, charged, refunded in *. cbn. lia.
  - now exists after.
Qed.

Lemma updateSstoreGas_classification_witness :
  (5000 <= gasLeft (eei (frame 100000 0 0 [])) /\
   exists after,
     updateSstoreGas adjustInactive [x01] [] [x07] (commonAt "homestead")
       (frame 100000 0 0 [])
     = (Ok tt, after) /\
     charged (frame 100000 0 0 []) after = 5000 /\
     refunded (frame 100000 0 0 []) after = 15000) /\
  (gasLeft (eei (frame 100 0 0 [])) < 20000 /\
   updateSstoreGas adjustInactive [] [x01] [x07] (commonAt "homestead")
     (frame 100 0 0 [])
   = (Throw OutOfGas, frame 100 0 0 [])).
Proof.
  split.
  - split; [cbn; lia |].
    apply (updateSstoreGas_classification adjustInactive
             (commonAt "homestead") [x01] [] [x07] (frame 100000 0 0 [])).
    cbn. lia.
  - split; [cbn; lia |].
    apply (updateSstoreGas_classification adjustInactive
             (commonAt "homestead") [] [x01] [x07] (frame 100 0 0 [])).
    cbn. lia.
Defined.

(** C3 (as stated) fails on the first class: with an empty current value
    and an empty new value the charger takes the sstoreReset price,
    5000 here, where the claim has it charge nothing. *)
Lemma updateSstoreGas_empty_empty_charged :
  updateSstoreGas adjustInactive [] [] [x07] (commonAt "homestead")
    (frame 100000 0 0 [])
  = (Ok tt, frame 95000 0 0 []) /\
  charged (frame 100000 0 0 []) (frame 95000 0 0 []) = 5000 /\
  charged (frame 100000 0 0 []) (frame 95000 0 0 []) <> 0.
Proof.
  split; [reflexivity |]. split; [reflexivity | discriminate].
Qed.

Example updateSstoreGas_equal_values :
  updateSstoreGas adjustInactive [x01] [x01] [x07] (commonAt "homestead")
    (frame 100000 0 0 [])
  = (Ok tt, frame 95000 0 0 []).
Proof. reflexivity. Qed.

(** * Further properties of the helpers *)

(** ** Modulo and ceiling division *)

(** X1: under any non-zero modulus [mod(a, b)] returns a value that
    differs from [a] by a multiple of [b]; under a zero modulus it
    throws a RangeError. *)
Theorem mod_congruent (a b : Z) :
  (b = 0 -> mod_ a b = Throw RangeError) /\
  (b <> 0 -> exists r k, mod_ a b = Ok r /\ a = k * b + r).
Proof.
  split.
  - intros ->. reflexivity.
  - intros Hb. unfold mod_. rewrite bigint_rem_ok by assumption.
    cbn [bind ret Monad_result].
    pose proof (Z.quot_rem' a b) as Hqr.
    destruct (Z.ltb_spec (Z.rem a b) 0).
    + exists (b + Z.rem a b), (Z.quot a b - 1). split; [reflexivity | lia].
    + exists (Z.rem a b), (Z.quot a b). split; [reflexivity | lia].
Qed.

Lemma mod_congruent_witness :
  (0 = 0 /\ mod_ 7 0 = Throw RangeError) /\
  (-3 <> 0 /\ exists r k, mod_ (-5) (-3) = Ok r /\ -5 = k * -3 + r).
Proof.
  split.
  - split; [reflexivity |]. apply (mod_congruent 7 0). reflexivity.
  - split; [lia |]. apply (mod_congruent (-5) (-3)). lia.
Defined.

(** X2: under a negative modulus [b] the result of [mod(a, b)] is never
    a residue in [b, 0): it lies in [0, -b) when the truncated remainder
    is not negative, and strictly below [b] (above [2 * b]) when it
    is. *)
Theorem mod_negative_modulus (a b : Z) :
  b < 0 ->
  exists r, mod_ a b = Ok r /\
            ((0 <= Z.rem a b /\ r = Z.rem a b /\ 0 <= r < - b) \/
             (Z.rem a b < 0 /\ r = b + Z.rem a b /\ 2 * b < r < b)).
Proof.
  intros Hb. unfold mod_. rewrite bigint_rem_ok by lia.
  cbn [bind ret Monad_result].
  assert (b <> 0) as Hb0 by lia.
  pose proof (Z.rem_bound_abs a b Hb0) as Habs.
  destruct (Z.ltb_spec (Z.rem a b) 0); eexists; (split; [reflexivity |]);
    [right | left]; lia.
Qed.

Lemma mod_negative_modulus_witness :
  -3 < 0 /\
  exists r, mod_ (-5) (-3) = Ok r /\
            ((0 <= Z.rem (-5) (-3) /\ r = Z.rem (-5) (-3) /\ 0 <= r < - -3) \/
             (Z.rem (-5) (-3) < 0 /\ r = -3 + Z.rem (-5) (-3) /\
              2 * -3 < r < -3)).
Proof.
  split; [lia | apply (mod_negative_modulus (-5) (-3)); lia].
Defined.

(** X3: [divCeil] throws a RangeError on a zero divisor and returns a
    quotient on every other one. *)
Theorem divCeil_throws_iff_zero (a b : Z) :
  (b = 0 -> divCeil a b = Throw RangeError) /\
  (b <> 0 -> exists q, divCeil a b = Ok q).
Proof.
  split.
  - intros ->. reflexivity.
  - intros Hb. unfold divCeil, mod_.
    rewrite bigint_div_ok, bigint_rem_ok by assumption.
    cbn [bind ret Monad_result].
    destruct (_ =? 0); eexists; reflexivity.
Qed.

Lemma divCeil_throws_iff_zero_witness :
  (0 = 0 /\ divCeil 7 0 = Throw RangeError) /\
  (32 <> 0 /\ exists q, divCeil (-7) 32 = Ok q).
Proof.
  split.
  - split; [reflexivity |]. apply (divCeil_throws_iff_zero 7 0). reflexivity.
  - split; [lia |]. apply (divCeil_throws_iff_zero (-7) 32). lia.
Defined.

Lemma ceiling_closed_form (a b : Z) :
  0 <= a -> 0 < b ->
  (if a mod b =? 0 then a / b else a / b + 1) = (a + b - 1) / b.
Proof.
  intros Ha Hb.
  pose proof (Z.div_mod a b ltac:(lia)) as Hdm.
  pose proof (Z.mod_pos_bound a b Hb) as Hbound.
  destruct (Z.eqb_spec (a mod b) 0) as [Hz | Hnz].
  - apply Z.div_unique with (r := b - 1); lia.
  - apply Z.div_unique with (r := a mod b - 1); lia.
Qed.

(** X4: on a non-negative [a] and a positive [b], [divCeil(a, b)] is
    [floor((a + b - 1) / b)], and it does not decrease when [a]
    grows. *)
Theorem divCeil_closed_form_monotone (a a' b : Z) :
  0 <= a -> a <= a' -> 0 < b ->
  divCeil a b = Ok ((a + b - 1) / b) /\
  divCeil a' b = Ok ((a' + b - 1) / b) /\
  (a + b - 1) / b <= (a' + b - 1) / b.
Proof.
  intros Ha Hle Hb.
  rewrite !divCeil_nonneg, !ceiling_closed_form by lia.
  repeat split. apply Z.div_le_mono; lia.
Qed.

Lemma divCeil_closed_form_monotone_witness :
  0 <= 33 /\ 33 <= 64 /\ 0 < 32 /\
  divCeil 33 32 = Ok ((33 + 32 - 1) / 32) /\
  divCeil 64 32 = Ok ((64 + 32 - 1) / 32) /\
  (33 + 32 - 1) / 32 <= (64 + 32 - 1) / 32.
Proof.
  split; [lia |]. split; [lia |]. split; [lia |].
  apply (divCeil_closed_form_monotone 33 64 32); lia.
Defined.

(** X5: on a negative [a] and a positive [b], [divCeil(a, b)] is the
    exact quotient when [b] divides [a], the floor of [a / b] when
    [a < -b], and 1 when [-b < a < 0]: the rounding looks at the sign of
    the truncated quotient, which is zero there. *)
Theorem divCeil_negative_dividend (a b : Z) :
  a < 0 -> 0 < b ->
  divCeil a b
  = Ok (if a mod b =? 0 then a / b
        else if - b <? a then 1 else a / b).
Proof.
  intros Ha Hb. unfold divCeil.
  rewrite bigint_div_ok, mod_pos_floor by lia.
  cbn [bind ret Monad_result].
  pose proof (Z.quot_rem' a b) as Hqr.
  pose proof (Z.rem_bound_pos_neg a b Hb ltac:(lia)) as Hrem.
  pose proof (Z.div_mod a b ltac:(lia)) as Hdm.
  pose proof (Z.mod_pos_bound a b Hb) as Hmod.
  destruct (Z.eqb_spec (a mod b) 0) as [Hz | Hnz].
  - f_equal. nia.
  - assert (Z.quot a b = a / b + 1) as Hq by nia.
    rewrite Hq.
    destruct (Z.ltb_spec (- b) a) as [Hnear | Hfar].
    + assert (a / b = -1) as -> by nia. reflexivity.
    + assert (a / b < -1) by nia.
      destruct (Z.ltb_spec (a / b + 1) 0); [f_equal; lia | lia].
Qed.

Lemma divCeil_negative_dividend_witness :
  -1 < 0 /\ 0 < 32 /\
  divCeil (-1) 32
  = Ok (if (-1) mod 32 =? 0 then (-1) / 32
        else if - 32 <? -1 then 1 else (-1) / 32).
Proof.
  split; [lia |]. split; [lia |].
  apply (divCeil_negative_dividend (-1) 32); lia.
Defined.

Example divCeil_m1_32 : divCeil (-1) 32 = Ok 1.
Proof. reflexivity. Qed.

(** ** Two's complement, further *)

Section TwosFurther.

Let M : Z := 2 ^ 256.

Lemma modulus_pos : 0 < 2 ^ 256.
Proof. apply Z.pow_pos_nonneg; lia. Qed.

Lemma toTwos_uint256 (x : Z) : uint256 x -> toTwos x = 2 ^ 256 - x.
Proof.
  unfold uint256. intros Hx. rewrite toTwos_neg.
  pose proof modulus_pos as HM. fold M in Hx, HM |- *.
  assert ((- x - 1) mod M = M - x - 1) as ->.
  { symmetry. apply Z.mod_unique with (q := -1); lia. }
  lia.
Qed.

End TwosFurther.

(** X6: for every integer [x], [fromTwos(x)] is a 256-bit unsigned value
    and the negation of [x] modulo 2^256: the two add up to a multiple
    of 2^256. *)
Theorem fromTwos_negates (x : Z) :
  uint256 (fromTwos x) /\ (x + fromTwos x) mod 2 ^ 256 = 0.
Proof.
  rewrite fromTwos_neg. pose proof modulus_pos as HM. split.
  - unfold uint256. apply Z.mod_pos_bound. exact HM.
  - rewrite Z.add_mod_idemp_r by lia.
    replace (x + - x) with 0 by lia. apply Z.mod_0_l. lia.
Qed.

(** X7: for every 256-bit unsigned [x], zero included,
    [fromTwos(toTwos(x))] is [x]. *)
Theorem fromTwos_toTwos (x : Z) :
  uint256 x -> fromTwos (toTwos x) = x.
Proof.
  intros Hx. rewrite toTwos_uint256 by assumption.
  rewrite fromTwos_neg. unfold uint256 in Hx.
  symmetry. apply Z.mod_unique with (q := -1); lia.
Qed.

Lemma fromTwos_toTwos_witness :
  uint256 0 /\ fromTwos (toTwos 0) = 0.
Proof.
  assert (uint256 0) as H by (unfold uint256; split; [lia | reflexivity]).
  split; [exact H | apply (fromTwos_toTwos 0 H)].
Defined.

(** X8: on a 256-bit unsigned [x], [toTwos(x)] is [2^256 - x]; it is a
    256-bit unsigned value again exactly when [x] is not zero. *)
Theorem toTwos_range (x : Z) :
  uint256 x ->
  toTwos x = 2 ^ 256 - x /\ (uint256 (toTwos x) <-> x <> 0).
Proof.
  intros Hx. rewrite toTwos_uint256 by assumption.
  unfold uint256 in *. split; [reflexivity | lia].
Qed.

Lemma toTwos_range_witness :
  uint256 5 /\ toTwos 5 = 2 ^ 256 - 5 /\ (uint256 (toTwos 5) <-> 5 <> 0).
Proof.
  assert (uint256 5) as H by (unfold uint256; split; [lia | reflexivity]).
  split; [exact H | apply (toTwos_range 5 H)].
Defined.

(** X9: for every 256-bit unsigned [x] other than zero,
    [toTwos(fromTwos(x))] is [x]. *)
Theorem toTwos_fromTwos_nonzero (x : Z) :
  uint256 x -> x <> 0 -> toTwos (fromTwos x) = x.
Proof.
  intros Hx Hnz. pose proof (fromTwos_neg x) as Hfrom.
  assert (fromTwos x = 2 ^ 256 - x) as Hval.
  { rewrite Hfrom. unfold uint256 in Hx.
    symmetry. apply Z.mod_unique with (q := -1); lia. }
  rewrite Hval, toTwos_uint256; unfold uint256 in *; lia.
Qed.

Lemma toTwos_fromTwos_nonzero_witness :
  uint256 (2 ^ 255) /\ 2 ^ 255 <> 0 /\ toTwos (fromTwos (2 ^ 255)) = 2 ^ 255.
Proof.
  assert (uint256 (2 ^ 255)) as H
    by (unfold uint256; split; [discriminate | reflexivity]).
  assert (2 ^ 255 <> 0) as Hnz by discriminate.
  split; [exact H |]. split; [exact Hnz |].
  apply (toTwos_fromTwos_nonzero (2 ^ 255) H Hnz).
Defined.

(** ** Slices, further *)

(** The length and the bytes of what [getDataSlice] returns. *)
Lemma getDataSlice_shape (data : Buffer) (offset length : Z) :
  0 <= offset -> 0 <= length < 2 ^ 53 ->
  Z.min (offset + length) (Buf.length data) < 2 ^ 53 ->
  exists r, getDataSlice data offset length = Ok r /\
            List.length r = Z.to_nat length /\
            forall i : nat,
              nth i r x00
              = if (i <? Z.to_nat length)%nat
                then nth (Z.to_nat offset + i) data x00 else x00.
Proof.
  intros Ho Hl Hfit. rewrite getDataSlice_window by assumption.
  set (n := Z.to_nat length). set (o := Z.to_nat offset).
  set (w := firstn n (skipn o data)).
  assert (List.length w = Nat.min n (List.length data - o)) as Hw.
  { subst w. now rewrite length_firstn, length_skipn. }
  eexists. split; [reflexivity |]. split.
  - rewrite length_app, repeat_length. lia.
  - intros i. destruct (Nat.ltb_spec i n) as [Hin | Hout].
    + destruct (Nat.lt_ge_cases i (List.length w)) as [Hiw | Hiw].
      * rewrite app_nth1 by assumption. subst w.
        rewrite nth_firstn, nth_skipn.
        destruct (Nat.ltb_spec i n); [reflexivity | lia].
      * rewrite app_nth2 by assumption. rewrite nth_repeat.
        symmetry. apply nth_overflow. lia.
    + destruct (Nat.lt_ge_cases i (List.length w)) as [Hiw | Hiw]; [lia |].
      rewrite app_nth2 by assumption. apply nth_repeat.
Qed.

(** The clamped offset lies in the buffer, and the clamped end is the
    smaller of [offset + length] and the length of the buffer. *)
Lemma clamped_window (offset length len : Z) :
  0 <= offset -> 0 <= length -> 0 <= len ->
  0 <= (if offset >? len then len else offset) <= len /\
  (if (if offset >? len then len else offset) + length >? len
   then len
   else (if offset >? len then len else offset) + length)
  = Z.min (offset + length) len.
Proof.
  intros Ho Hl Hlen.
  destruct (Z.gtb_spec offset len); cbv iota;
    match goal with
    | |- context [?x + length >? len] =>
        destruct (Z.gtb_spec (x + length) len)
    end; lia.
Qed.

(** A call that returns has converted its length, its clamped offset and
    its clamped end to numbers. *)
Lemma getDataSlice_ok_fits (data r : Buffer) (offset length : Z) :
  0 <= offset -> 0 <= length ->
  getDataSlice data offset length = Ok r ->
  length < 2 ^ 53 /\ Z.min (offset + length) (Buf.length data) < 2 ^ 53.
Proof.
  intros Ho Hl Hr.
  pose proof (buf_length_nonneg data) as Hlen.
  destruct (clamped_window offset length (Buf.length data) Ho Hl Hlen)
    as [Hstart Hend].
  unfold getDataSlice in Hr. rewrite Hend in Hr.
  unfold BN.toNumber in Hr.
  destruct (Z.ltb_spec (Z.abs (if offset >? Buf.length data
                               then Buf.length data else offset))
              (2 ^ 53)); [| discriminate Hr].
  destruct (Z.ltb_spec (Z.abs (Z.min (offset + length) (Buf.length data)))
              (2 ^ 53)); [| discriminate Hr].
  cbn [bind Monad_result] in Hr.
  destruct (Z.ltb_spec (Z.abs length) (2 ^ 53)); [| discriminate Hr].
  lia.
Qed.

(** X10: for a buffer [data] (its length below 2^53), a non-negative
    [offset] and a [length] with [0 <= length < 2^53], byte [i] of
    [getDataSlice(data, offset, length)], for [i] below [length], is
    byte [offset + i] of [data] when there is one and zero when there is
    none. *)
Theorem getDataSlice_bytes (data : Buffer) (offset length : Z) :
  0 <= offset -> 0 <= length < 2 ^ 53 -> Buf.length data < 2 ^ 53 ->
  exists r, getDataSlice data offset length = Ok r /\
            forall i : nat,
              Z.of_nat i < length ->
              nth i r x00
              = if Z.of_nat i + offset <? Buf.length data
                then nth (Z.to_nat offset + i) data x00 else x00.
Proof.
  intros Ho Hl Hdata.
  destruct (getDataSlice_shape data offset length Ho Hl ltac:(lia))
    as (r & Hr & _ & Hnth).
  exists r. split; [exact Hr |]. intros i Hi. rewrite Hnth.
  destruct (Nat.ltb_spec i (Z.to_nat length)); [| lia].
  unfold Buf.length.
  destruct (Z.ltb_spec (Z.of_nat i + offset) (Z.of_nat (List.length data)));
    [reflexivity |].
  apply nth_overflow. lia.
Qed.

Lemma getDataSlice_bytes_witness :
  0 <= 1 /\ 0 <= 4 < 2 ^ 53 /\ Buf.length [x0a; x0b; x0c] < 2 ^ 53 /\
  exists r, getDataSlice [x0a; x0b; x0c] 1 4 = Ok r /\
            forall i : nat,
              Z.of_nat i < 4 ->
              nth i r x00
              = if Z.of_nat i + 1 <? Buf.length [x0a; x0b; x0c]
                then nth (Z.to_nat 1 + i) [x0a; x0b; x0c] x00 else x00.
Proof.
  assert (0 <= 4 < 2 ^ 53) as H4 by (split; [discriminate | reflexivity]).
  assert (Buf.length [x0a; x0b; x0c] < 2 ^ 53) as Hdata by reflexivity.
  split; [lia |]. split; [exact H4 |]. split; [exact Hdata |].
  apply (getDataSlice_bytes [x0a; x0b; x0c] 1 4); [lia | exact H4 | exact Hdata].
Defined.

(** X25: when the window [offset, offset + length) lies inside a buffer
    [data] (its length below 2^53), [getDataSlice] returns the plain
    slice of [data], with no byte added. *)
Theorem getDataSlice_inside_is_slice (data : Buffer) (offset length : Z) :
  0 <= offset -> 0 <= length -> offset + length <= Buf.length data ->
  Buf.length data < 2 ^ 53 ->
  getDataSlice data offset length
  = Ok (Buf.slice data offset (offset + length)).
Proof.
  intros Ho Hl Hin Hdata. rewrite getDataSlice_window by lia.
  rewrite slice_within by lia.
  replace (offset + length - offset) with length by lia.
  rewrite length_firstn, length_skipn. unfold Buf.length in Hin.
  replace (Z.to_nat length
           - Nat.min (Z.to_nat length)
               (List.length data - Z.to_nat offset))%nat
    with 0%nat by lia.
  cbn [repeat]. now rewrite app_nil_r.
Qed.

Lemma getDataSlice_inside_is_slice_witness :
  0 <= 1 /\ 0 <= 2 /\ 1 + 2 <= Buf.length [x0a; x0b; x0c] /\
  Buf.length [x0a; x0b; x0c] < 2 ^ 53 /\
  getDataSlice [x0a; x0b; x0c] 1 2 = Ok (Buf.slice [x0a; x0b; x0c] 1 (1 + 2)).
Proof.
  assert (Buf.length [x0a; x0b; x0c] < 2 ^ 53) as Hdata by reflexivity.
  split; [lia |]. split; [lia |]. split; [cbn; lia |].
  split; [exact Hdata |].
  apply (getDataSlice_inside_is_slice [x0a; x0b; x0c] 1 2);
    [lia | lia | cbn; lia | exact Hdata].
Defined.

(** X12: a slice of a slice is a slice: when the inner window
    [offset', offset' + length') lies inside the first [length] bytes,
    slicing the result of [getDataSlice(data, offset, length)] gives
    [getDataSlice(data, offset + offset', length')], padding included. *)
Theorem getDataSlice_compose (data r : Buffer)
  (offset length offset' length' : Z) :
  0 <= offset -> 0 <= length -> 0 <= offset' -> 0 <= length' ->
  offset' + length' <= length ->
  getDataSlice data offset length = Ok r ->
  getDataSlice r offset' length'
  = getDataSlice data (offset + offset') length'.
Proof.
  intros Ho Hl Ho' Hl' Hin Hr.
  destruct (getDataSlice_ok_fits data r offset length Ho Hl Hr)
    as [Hfit Hmin].
  destruct (getDataSlice_shape data offset length Ho ltac:(lia) Hmin)
    as (r0 & Hr0 & Hlen0 & Hnth0).
  rewrite Hr in Hr0. injection Hr0 as <-.
  destruct (getDataSlice_shape r offset' length' Ho' ltac:(lia) ltac:(lia))
    as (r1 & -> & Hlen1 & Hnth1).
  destruct (getDataSlice_shape data (offset + offset') length'
              ltac:(lia) ltac:(lia) ltac:(lia))
    as (r2 & -> & Hlen2 & Hnth2).
  f_equal. apply nth_ext with (d := x00) (d' := x00); [congruence |].
  intros i Hi. rewrite Hnth1, Hnth2, Hnth0.
  destruct (Nat.ltb_spec i (Z.to_nat length')); [| reflexivity].
  destruct (Nat.ltb_spec (Z.to_nat offset' + i) (Z.to_nat length)); [| lia].
  f_equal. lia.
Qed.

Lemma getDataSlice_compose_witness :
  0 <= 1 /\ 0 <= 6 /\ 0 <= 1 /\ 0 <= 4 /\ 1 + 4 <= 6 /\
  getDataSlice [x0a; x0b; x0c] 1 6 = Ok [x0b; x0c; x00; x00; x00; x00] /\
  getDataSlice [x0b; x0c; x00; x00; x00; x00] 1 4
  = getDataSlice [x0a; x0b; x0c] (1 + 1) 4.
Proof.
  repeat (split; [lia |]). split; [reflexivity |].
  apply (getDataSlice_compose [x0a; x0b; x0c]
           [x0b; x0c; x00; x00; x00; x00] 1 6 1 4);
    try lia; reflexivity.
Defined.

(** ** The number a buffer holds *)

Section BigEndian.

Let byteZ (x : byte) : Z := Z.of_N (Byte.to_N x).

Lemma byteZ_bound (x : byte) : 0 <= Z.of_N (Byte.to_N x) < 256.
Proof. pose proof (Byte.to_N_bounded x). lia. Qed.

Lemma byteZ_zero (x : byte) : Z.of_N (Byte.to_N x) = 0 <-> x = x00.
Proof.
  split.
  - intros Hz. assert (Byte.to_N x = 0%N) as Hn by lia.
    pose proof (Byte.of_to_N x) as Hx. rewrite Hn in Hx.
    cbn in Hx. congruence.
  - intros ->. reflexivity.
Qed.

Lemma byteZ_inj (x y : byte) :
  Z.of_N (Byte.to_N x) = Z.of_N (Byte.to_N y) -> x = y.
Proof.
  intros H. assert (Byte.to_N x = Byte.to_N y) as Hn by lia.
  pose proof (Byte.of_to_N x) as Hx. rewrite Hn, Byte.of_to_N in Hx.
  congruence.
Qed.

Lemma fold_be_from (l : Buffer) (acc : Z) :
  fold_left (fun acc x => acc * 256 + Z.of_N (Byte.to_N x)) l acc
  = acc * 256 ^ Z.of_nat (List.length l) + beValue l.
Proof.
  unfold beValue. revert acc.
  induction l as [| x l IH]; intros acc.
  - cbn. lia.
  - cbn [fold_left List.length]. rewrite IH, (IH (0 * 256 + _)).
    rewrite Nat2Z.inj_succ, Z.pow_succ_r by lia. ring.
Qed.

Lemma beValue_app (a b : Buffer) :
  beValue (a ++ b) = beValue a * 256 ^ Buf.length b + beValue b.
Proof.
  unfold beValue at 1. rewrite fold_left_app.
  fold (beValue a). apply fold_be_from.
Qed.

Lemma beValue_cons (x : byte) (b : Buffer) :
  beValue (x :: b)
  = Z.of_N (Byte.to_N x) * 256 ^ Buf.length b + beValue b.
Proof.
  change (x :: b) with ([x] ++ b). rewrite beValue_app.
  unfold beValue at 1. cbn [fold_left]. lia.
Qed.

Lemma beValue_bound (b : Buffer) : 0 <= beValue b < 256 ^ Buf.length b.
Proof.
  induction b as [| x b IH].
  - cbn. lia.
  - rewrite beValue_cons. pose proof (byteZ_bound x) as Hx.
    unfold Buf.length in *. cbn [List.length].
    rewrite Nat2Z.inj_succ, Z.pow_succ_r by lia. nia.
Qed.

Lemma beValue_zero_iff (b : Buffer) : beValue b = 0 <-> allZero b = true.
Proof.
  induction b as [| x b IH].
  - cbn. tauto.
  - rewrite beValue_cons, allZero_cons, andb_true_iff, <- IH.
    pose proof (byteZ_bound x) as Hx.
    pose proof (beValue_bound b) as Hb.
    assert (0 < 256 ^ Buf.length b) as Hp
      by (apply Z.pow_pos_nonneg; [lia | apply buf_length_nonneg]).
    split.
    + intros Hsum.
      assert (Z.of_N (Byte.to_N x) = 0 /\ beValue b = 0) as [Hx0 Hb0] by nia.
      split; [| exact Hb0].
      apply byteZ_zero in Hx0. subst x. reflexivity.
    + intros [Hx0 Hb0]. apply byte_dec_bl in Hx0. subst x.
      cbn [Byte.to_N Z.of_N]. lia.
Qed.

(** Two buffers of one length that hold the same number are equal. *)
Lemma beValue_inj (a b : Buffer) :
  List.length a = List.length b -> beValue a = beValue b -> a = b.
Proof.
  revert b. induction a as [| x a IH]; intros [| y b] Hlen Hval;
    try discriminate; [reflexivity |].
  injection Hlen as Hlen.
  rewrite !beValue_cons in Hval.
  unfold Buf.length in Hval. rewrite Hlen in Hval.
  pose proof (byteZ_bound x) as Hx. pose proof (byteZ_bound y) as Hy.
  pose proof (beValue_bound a) as Ha. pose proof (beValue_bound b) as Hb.
  unfold Buf.length in Ha, Hb. rewrite Hlen in Ha.
  assert (Z.of_N (Byte.to_N x) = Z.of_N (Byte.to_N y)) as Hxy.
  { destruct (Z.lt_trichotomy (Z.of_N (Byte.to_N x)) (Z.of_N (Byte.to_N y)))
      as [Hlt | [Heq | Hgt]]; [nia | exact Heq | nia]. }
  assert (beValue a = beValue b) as Hab by (rewrite Hxy in Hval; lia).
  apply byteZ_inj in Hxy. subst y. f_equal. now apply IH.
Qed.

Lemma beValue_zero_prefix (k : nat) (b : Buffer) :
  beValue (repeat x00 k ++ b) = beValue b.
Proof.
  rewrite beValue_app.
  assert (beValue (repeat x00 k) = 0) as ->; [| lia].
  apply beValue_zero_iff, allZero_repeat. now rewrite repeat_length.
Qed.

Lemma byteOf_value (z : Z) :
  0 <= z < 256 -> Z.of_N (Byte.to_N (BNBuffer.byteOf z)) = z.
Proof.
  intros Hz. unfold BNBuffer.byteOf.
  destruct (Byte.of_N (Z.to_N z)) as [b |] eqn:Hb.
  - apply Byte.to_of_N in Hb. lia.
  - apply Byte.of_N_None_iff in Hb. lia.
Qed.

Lemma beBytes_length (n : nat) (a : Z) :
  List.length (BNBuffer.beBytes n a) = n.
Proof.
  revert a. induction n as [| n IH]; intros a; cbn [BNBuffer.beBytes].
  - reflexivity.
  - rewrite length_app, IH. cbn. lia.
Qed.

(** The [n] bytes written for [a] hold [a] modulo [256^n]. *)
Lemma beValue_beBytes (n : nat) (a : Z) :
  0 <= a -> beValue (BNBuffer.beBytes n a) = a mod 256 ^ Z.of_nat n.
Proof.
  revert a. induction n as [| n IH]; intros a Ha.
  - cbn. now rewrite Z.mod_1_r.
  - cbn [BNBuffer.beBytes]. rewrite beValue_app.
    change (Buf.length [BNBuffer.byteOf (Z.land a 255)]) with 1.
    rewrite Z.pow_1_r.
    change 255 with (Z.ones 8). rewrite Z.land_ones by lia.
    rewrite Z.shiftr_div_pow2 by lia. change (2 ^ 8) with 256.
    rewrite IH by (apply Z.div_pos; lia).
    unfold beValue at 1. cbn [fold_left].
    rewrite byteOf_value by (apply Z.mod_pos_bound; lia).
    rewrite Nat2Z.inj_succ, Z.pow_succ_r by lia.
    rewrite (Z.rem_mul_r a 256 (256 ^ Z.of_nat n)) by
      (try apply Z.pow_pos_nonneg; lia).
    lia.
Qed.

End BigEndian.

(** ** Storage values, further *)

(** A value of at most 32 bytes that is not all zero receives zeros in
    front. *)
Lemma setLengthLeftStorage_short (value : Buffer) :
  allZero value = false -> Buf.length value <= 32 ->
  setLengthLeftStorage value
  = Ok (repeat x00 (Z.to_nat (32 - Buf.length value)) ++ value).
Proof.
  intros Hz Hlen. rewrite setLengthLeftStorage_nonzero by assumption.
  destruct (Z.lt_ge_cases (Buf.length value) 32) as [Hshort | Hfull].
  - now apply setLengthLeft_pad.
  - assert (Buf.length value = 32) as Heq by lia.
    rewrite setLengthLeft_cut by lia. rewrite Heq. reflexivity.
Qed.

(** X13: on a value of at most 32 bytes [setLengthLeftStorage] returns
    a buffer that holds the same big-endian number as the value, in no
    byte (the number zero) or in exactly 32 bytes. *)
Theorem setLengthLeftStorage_keeps_number (value : Buffer) :
  Buf.length value <= 32 ->
  exists r, setLengthLeftStorage value = Ok r /\
            beValue r = beValue value /\
            (Buf.length r = 0 \/ Buf.length r = 32).
Proof.
  intros Hlen. destruct (allZero value) eqn:Hz.
  - exists []. split; [now apply setLengthLeftStorage_zero |].
    split; [| now left]. symmetry. now apply beValue_zero_iff.
  - rewrite setLengthLeftStorage_short by assumption.
    eexists. split; [reflexivity |]. split.
    + apply beValue_zero_prefix.
    + right. pose proof (buf_length_nonneg value).
      rewrite buf_length_app. unfold Buf.length in *.
      rewrite repeat_length. lia.
Qed.

Lemma setLengthLeftStorage_keeps_number_witness :
  Buf.length [x00; x01; x02] <= 32 /\
  exists r, setLengthLeftStorage [x00; x01; x02] = Ok r /\
            beValue r = beValue [x00; x01; x02] /\
            (Buf.length r = 0 \/ Buf.length r = 32).
Proof.
  split; [cbn; lia |].
  apply (setLengthLeftStorage_keeps_number [x00; x01; x02]). cbn. lia.
Defined.

(** X14: [setLengthLeftStorage] is canonical on values of at most 32
    bytes: two values that hold the same big-endian number, whatever
    their lengths, give the same result. *)
Theorem setLengthLeftStorage_canonical (v w : Buffer) :
  Buf.length v <= 32 -> Buf.length w <= 32 ->
  beValue v = beValue w ->
  setLengthLeftStorage v = setLengthLeftStorage w.
Proof.
  intros Hv Hw Hval.
  destruct (allZero v) eqn:Hzv.
  - assert (allZero w = true) as Hzw.
    { apply beValue_zero_iff. rewrite <- Hval. now apply beValue_zero_iff. }
    now rewrite !setLengthLeftStorage_zero.
  - assert (allZero w = false) as Hzw.
    { destruct (allZero w) eqn:Hzw; [| reflexivity].
      apply beValue_zero_iff in Hzw. rewrite <- Hval in Hzw.
      apply beValue_zero_iff in Hzw. congruence. }
    rewrite !setLengthLeftStorage_short by assumption.
    f_equal. apply beValue_inj.
    + pose proof (buf_length_nonneg v). pose proof (buf_length_nonneg w).
      rewrite !length_app, !repeat_length. unfold Buf.length in *. lia.
    + now rewrite !beValue_zero_prefix.
Qed.

Lemma setLengthLeftStorage_canonical_witness :
  Buf.length [x00; x00; x07] <= 32 /\ Buf.length [x07] <= 32 /\
  beValue [x00; x00; x07] = beValue [x07] /\
  setLengthLeftStorage [x00; x00; x07] = setLengthLeftStorage [x07].
Proof.
  split; [cbn; lia |]. split; [cbn; lia |]. split; [reflexivity |].
  apply (setLengthLeftStorage_canonical [x00; x00; x07] [x07]);
    [cbn; lia | cbn; lia | reflexivity].
Defined.

(** X15: on values of at most 32 bytes [setLengthLeftStorage] is
    idempotent: applied to its own result it returns that result. *)
Theorem setLengthLeftStorage_idempotent (value r : Buffer) :
  Buf.length value <= 32 ->
  setLengthLeftStorage value = Ok r ->
  setLengthLeftStorage r = Ok r.
Proof.
  intros Hlen Hr. destruct (allZero value) eqn:Hz.
  - rewrite setLengthLeftStorage_zero in Hr by assumption.
    injection Hr as <-. reflexivity.
  - rewrite setLengthLeftStorage_short in Hr by assumption.
    assert (r = repeat x00 (Z.to_nat (32 - Buf.length value)) ++ value)
      as Er by congruence.
    clear Hr.
    assert (Buf.length r = 32) as Hlen32.
    { rewrite Er. pose proof (buf_length_nonneg value).
      rewrite buf_length_app. unfold Buf.length in *.
      rewrite repeat_length. lia. }
    assert (allZero r = false) as Hzr.
    { destruct (allZero r) eqn:Hzr; [| reflexivity].
      apply beValue_zero_iff in Hzr.
      rewrite Er, beValue_zero_prefix in Hzr.
      apply beValue_zero_iff in Hzr. congruence. }
    rewrite setLengthLeftStorage_short; [| exact Hzr | lia].
    rewrite Hlen32. reflexivity.
Qed.

Lemma setLengthLeftStorage_idempotent_witness :
  Buf.length [x01; x02] <= 32 /\
  setLengthLeftStorage [x01; x02] = Ok (repeat x00 30 ++ [x01; x02]) /\
  setLengthLeftStorage (repeat x00 30 ++ [x01; x02])
  = Ok (repeat x00 30 ++ [x01; x02]).
Proof.
  split; [cbn; lia |]. split; [reflexivity |].
  apply (setLengthLeftStorage_idempotent [x01; x02]);
    [cbn; lia | reflexivity].
Defined.

(** ** Addresses *)

Lemma mask_160_ones : MASK_160 = Z.ones 160.
Proof. reflexivity. Qed.

Lemma byteLength_fits (a n : Z) :
  0 <= a < 2 ^ (8 * n) -> 0 < n -> BNBuffer.byteLength a <= n.
Proof.
  intros Ha Hn. unfold BNBuffer.byteLength.
  destruct (Z.eqb_spec a 0) as [| Hnz]; [lia |].
  rewrite Z.abs_eq by lia.
  assert (Z.log2 a < 8 * n) as Hlog by (apply Z.log2_lt_pow2; lia).
  pose proof (Z.log2_nonneg a) as Hnn.
  assert (Z.log2 a / 8 < n) by (apply Z.div_lt_upper_bound; lia).
  lia.
Qed.

(** X16: [addressToBuffer] returns a [Buffer] argument as it is, of
    whatever length; a non-negative [BN] becomes exactly 20 bytes that
    hold the address modulo 2^160, most significant byte first; a
    negative [BN] fails the assertion of [and]. *)
Theorem addressToBuffer_spec (address : Z) (buf : Buffer) :
  addressToBuffer (inr buf) = Ok buf /\
  (0 <= address ->
   exists r, addressToBuffer (inl address) = Ok r /\
             Buf.length r = 20 /\
             beValue r = address mod 2 ^ 160) /\
  (address < 0 -> addressToBuffer (inl address) = Throw AssertionError).
Proof.
  split; [reflexivity |]. split.
  - intros Ha. unfold addressToBuffer, BNBuffer.and.
    destruct (Z.ltb_spec address 0); [lia |].
    change (MASK_160 <? 0) with false.
    cbn [orb bind Monad_result].
    rewrite mask_160_ones, Z.land_ones by lia.
    set (m := address mod 2 ^ 160).
    assert (0 <= m < 2 ^ 160) as Hm
      by (subst m; apply Z.mod_pos_bound; reflexivity).
    unfold BNBuffer.toArrayLike. cbn [Z.eqb].
    pose proof (byteLength_fits m 20 Hm ltac:(lia)) as Hfit.
    destruct (Z.ltb_spec 20 (BNBuffer.byteLength m)); [lia |].
    cbn [Z.leb Z.compare]. rewrite Z.abs_eq by lia.
    eexists. split; [reflexivity |]. split.
    + unfold Buf.length. now rewrite beBytes_length.
    + rewrite beValue_beBytes by lia.
      change (256 ^ Z.of_nat (Z.to_nat 20)) with (2 ^ 160).
      apply Z.mod_small. exact Hm.
  - intros Ha. unfold addressToBuffer, BNBuffer.and.
    destruct (Z.ltb_spec address 0); [reflexivity | lia].
Qed.

Lemma addressToBuffer_spec_witness :
  addressToBuffer (inr [x0a]) = Ok [x0a] /\
  (0 <= 2 ^ 160 + 258 /\
   exists r, addressToBuffer (inl (2 ^ 160 + 258)) = Ok r /\
             Buf.length r = 20 /\
             beValue r = (2 ^ 160 + 258) mod 2 ^ 160) /\
  (-1 < 0 /\ addressToBuffer (inl (-1)) = Throw AssertionError).
Proof.
  split; [apply (addressToBuffer_spec 0 [x0a]) |]. split.
  - split; [discriminate |].
    apply (addressToBuffer_spec (2 ^ 160 + 258) []). discriminate.
  - split; [lia |]. apply (addressToBuffer_spec (-1) []). lia.
Defined.

Example addressToBuffer_258 :
  addressToBuffer (inl (2 ^ 160 + 258)) = Ok (repeat x00 18 ++ [x01; x02]).
Proof. reflexivity. Qed.

(** ** Hexadecimal summaries and opcode names *)

Section Strings.

Local Open Scope string_scope.

Lemma string_length_app (s t : string) :
  String.length (s ++ t) = (String.length s + String.length t)%nat.
Proof. induction s as [| c s IH]; cbn; [reflexivity | now rewrite IH]. Qed.

Lemma string_app_assoc (s t u : string) : (s ++ t) ++ u = s ++ (t ++ u).
Proof. induction s as [| c s IH]; cbn; [reflexivity | now rewrite IH]. Qed.

Lemma string_app_inv_head (s t u : string) : s ++ t = s ++ u -> t = u.
Proof.
  induction s as [| c s IH]; cbn; [tauto |].
  intros [= H]. now apply IH.
Qed.

Lemma substring_whole_prefix (s t : string) :
  substring 0 (String.length s) (s ++ t) = s.
Proof. induction s as [| c s IH]; cbn; [now destruct t | now rewrite IH]. Qed.

Lemma substring_all (s : string) (n : nat) :
  (String.length s <= n)%nat -> substring 0 n s = s.
Proof.
  revert n. induction s as [| c s IH]; intros [| n] Hn; cbn in *;
    try reflexivity; try lia.
  rewrite IH by lia. reflexivity.
Qed.

Lemma toHex_length (b : Buffer) :
  String.length (toHex b) = (2 * List.length b)%nat.
Proof.
  induction b as [| x b IH]; [reflexivity |].
  cbn [toHex]. rewrite string_length_app, IH. cbn. lia.
Qed.

Lemma toHex_app (a b : Buffer) :
  toHex (a ++ b)%list = toHex a ++ toHex b.
Proof.
  induction a as [| x a IH]; [reflexivity |].
  cbn [toHex app]. now rewrite IH, string_app_assoc.
Qed.

Lemma numberToString_inj (a b : Z) :
  numberToString a = numberToString b -> a = b.
Proof.
  unfold numberToString. intros H.
  assert (forall z, Z.to_int z <> Decimal.Pos Decimal.Nil
                    /\ Z.to_int z <> Decimal.Neg Decimal.Nil) as Hnn.
  { intros [| p | p]; cbn; split; try discriminate;
      intros [= Hp]; now apply Unsigned.to_uint_nonnil in Hp. }
  pose proof (NilZero.isi (Z.to_int a) (proj1 (Hnn a)) (proj2 (Hnn a)))
    as Ha.
  pose proof (NilZero.isi (Z.to_int b) (proj1 (Hnn b)) (proj2 (Hnn b)))
    as Hb.
  rewrite H, Hb in Ha. injection Ha as Hab.
  rewrite <- (DecimalZ.of_to a), <- (DecimalZ.of_to b). now f_equal.
Qed.

End Strings.

(** X17: [short] returns the whole hexadecimal text of a buffer of at
    most 25 bytes; of a longer buffer it returns the text of the first
    25 bytes followed by three dots, 53 characters in all. *)
Theorem short_spec (buffer : Buffer) :
  (Buf.length buffer <= 25 -> short buffer = toHex buffer) /\
  (25 < Buf.length buffer ->
   short buffer = (toHex (firstn 25 buffer) ++ "...")%string /\
   String.length (short buffer) = 53%nat).
Proof.
  unfold short, Buf.length. pose proof (toHex_length buffer) as Hlen.
  split; intros Hb.
  - destruct (Nat.leb_spec (String.length (toHex buffer)) 50);
      [reflexivity | lia].
  - destruct (Nat.leb_spec (String.length (toHex buffer)) 50); [lia |].
    assert (substring 0 50 (toHex buffer) = toHex (firstn 25 buffer)) as ->.
    { rewrite <- (firstn_skipn 25 buffer) at 1. rewrite toHex_app.
      replace 50%nat with (String.length (toHex (firstn 25 buffer))).
      - apply substring_whole_prefix.
      - rewrite toHex_length, length_firstn. lia. }
    split; [reflexivity |].
    rewrite string_length_app, toHex_length, length_firstn.
    cbn [String.length]. lia.
Qed.

Lemma short_spec_witness :
  (Buf.length [xde; xad] <= 25 /\ short [xde; xad] = toHex [xde; xad]) /\
  (25 < Buf.length (repeat xab 26) /\
   short (repeat xab 26)
   = (toHex (firstn 25 (repeat xab 26)) ++ "...")%string /\
   String.length (short (repeat xab 26)) = 53%nat).
Proof.
  split.
  - split; [cbn; lia |]. apply (short_spec [xde; xad]). cbn. lia.
  - split; [cbn; lia |]. apply (short_spec (repeat xab 26)). cbn. lia.
Defined.

Example short_dead : short [xde; xad] = "dead"%string.
Proof. reflexivity. Qed.

Lemma getFullname_families (code : Z) :
  getFullname code "LOG" = ("LOG" ++ numberToString (code - 0xa0))%string /\
  getFullname code "PUSH" = ("PUSH" ++ numberToString (code - 0x5f))%string /\
  getFullname code "DUP" = ("DUP" ++ numberToString (code - 0x7f))%string /\
  getFullname code "SWAP" = ("SWAP" ++ numberToString (code - 0x8f))%string.
Proof. repeat split; reflexivity. Qed.

(** X18: [getFullname] returns every name other than LOG, PUSH, DUP and
    SWAP as it is; for each of these four, two different opcode bytes
    receive two different full names. *)
Theorem getFullname_spec (code code' : Z) (name : string) :
  (~ In name ["LOG"; "PUSH"; "DUP"; "SWAP"]%string ->
   getFullname code name = name) /\
  (In name ["LOG"; "PUSH"; "DUP"; "SWAP"]%string ->
   0 <= code < 256 -> 0 <= code' < 256 -> code <> code' ->
   getFullname code name <> getFullname code' name).
Proof.
  split.
  - intros Hout. cbn [In] in Hout. unfold getFullname.
    repeat match goal with
      | |- context [String.eqb name ?k] =>
          destruct (String.eqb_spec name k); [exfalso; intuition congruence |]
      end.
    reflexivity.
  - intros Hin _ _ Hne Heq. apply Hne. cbn [In] in Hin.
    destruct (getFullname_families code) as (Hl & Hp & Hd & Hs).
    destruct (getFullname_families code') as (Hl' & Hp' & Hd' & Hs').
    destruct Hin as [<- | [<- | [<- | [<- | []]]]];
      [rewrite Hl, Hl' in Heq | rewrite Hp, Hp' in Heq
      | rewrite Hd, Hd' in Heq | rewrite Hs, Hs' in Heq];
      apply string_app_inv_head, numberToString_inj in Heq; lia.
Qed.

Lemma getFullname_spec_witness :
  (~ In "ADD"%string ["LOG"; "PUSH"; "DUP"; "SWAP"]%string /\
   getFullname 1 "ADD" = "ADD"%string) /\
  (In "PUSH"%string ["LOG"; "PUSH"; "DUP"; "SWAP"]%string /\
   0 <= 0x60 < 256 /\ 0 <= 0x7f < 256 /\ 0x60 <> 0x7f /\
   getFullname 0x60 "PUSH" <> getFullname 0x7f "PUSH").
Proof.
  assert (~ In "ADD"%string ["LOG"; "PUSH"; "DUP"; "SWAP"]%string) as Hout.
  { cbn [In]. intros [H | [H | [H | [H | []]]]]; discriminate H. }
  assert (In "PUSH"%string ["LOG"; "PUSH"; "DUP"; "SWAP"]%string) as Hin.
  { cbn [In]. right. left. reflexivity. }
  split.
  - split; [exact Hout |]. apply (getFullname_spec 1 1 "ADD"). exact Hout.
  - split; [exact Hin |]. split; [lia |]. split; [lia |].
    split; [lia |].
    apply (getFullname_spec 0x60 0x7f "PUSH"); [exact Hin | lia | lia | lia].
Defined.

Example getFullname_push1 : getFullname 0x60 "PUSH" = "PUSH1"%string.
Proof. reflexivity. Qed.

Example getFullname_swap16 : getFullname 0x9f "SWAP" = "SWAP16"%string.
Proof. reflexivity. Qed.

(** ** Jump destinations *)

Lemma indexOfFrom_found (l : list Z) (x i : Z) :
  0 <= i -> (indexOfFrom l x i = -1 <-> ~ In x l).
Proof.
  revert i. induction l as [| y l IH]; intros i Hi; cbn [indexOfFrom In].
  - tauto.
  - destruct (Z.eqb_spec y x) as [-> | Hne].
    + split; [lia | tauto].
    + rewrite IH by lia. tauto.
Qed.

(** X19: [jumpIsValid] holds exactly for the destinations listed in
    [validJumps], and [jumpSubIsValid] exactly for those listed in
    [validJumpSubs]; neither looks at the other list. *)
Theorem jump_valid_iff_listed (runState : RunState) (dest : Z) :
  (jumpIsValid runState dest = true <-> In dest (validJumps runState)) /\
  (jumpSubIsValid runState dest = true
   <-> In dest (validJumpSubs runState)).
Proof.
  unfold jumpIsValid, jumpSubIsValid, indexOf.
  split; rewrite negb_true_iff, Z.eqb_neq, indexOfFrom_found by lia.
  - destruct (in_dec Z.eq_dec dest (validJumps runState)); tauto.
  - destruct (in_dec Z.eq_dec dest (validJumpSubs runState)); tauto.
Qed.

Lemma jump_valid_iff_listed_witness :
  (In 7 (validJumps (jumpFrame [3; 7] [9])) /\
   jumpIsValid (jumpFrame [3; 7] [9]) 7 = true) /\
  (In 9 (validJumpSubs (jumpFrame [3; 7] [9])) /\
   jumpSubIsValid (jumpFrame [3; 7] [9]) 9 = true).
Proof.
  split.
  - assert (In 7 (validJumps (jumpFrame [3; 7] [9]))) as H
      by (cbn; auto).
    split; [exact H |].
    apply (jump_valid_iff_listed (jumpFrame [3; 7] [9]) 7). exact H.
  - assert (In 9 (validJumpSubs (jumpFrame [3; 7] [9]))) as H
      by (cbn; auto).
    split; [exact H |].
    apply (jump_valid_iff_listed (jumpFrame [3; 7] [9]) 9). exact H.
Defined.

Example jumpIsValid_other_list :
  jumpIsValid (jumpFrame [3; 7] [9]) 9 = false.
Proof. reflexivity. Qed.

(** ** Call gas, further *)

(** X20: [maxCallGas] never returns more than the requested [gasLimit];
    from tangerineWhistle on, with a gas counter that is not negative,
    it never returns more than [gasLeft], and the caller keeps at least
    [floor(gasLeft / 64)] of its gas. *)
Theorem maxCallGas_bounds (gasLimit gasLeft : Z) (runState : RunState)
  (common : Common) :
  maxCallGas gasLimit gasLeft runState common <= gasLimit /\
  (gteHardfork common "tangerineWhistle" = true -> 0 <= gasLeft ->
   maxCallGas gasLimit gasLeft runState common <= gasLeft /\
   gasLeft / 64
   <= gasLeft - maxCallGas gasLimit gasLeft runState common).
Proof.
  unfold maxCallGas, BN.divn. split.
  - destruct (gteHardfork common "tangerineWhistle"); [| lia].
    destruct (Z.gtb_spec gasLimit (gasLeft - Z.quot gasLeft 64)); lia.
  - intros -> Hgas. rewrite Z.quot_div_nonneg by lia.
    assert (0 <= gasLeft / 64) by (apply Z.div_pos; lia).
    destruct (Z.gtb_spec gasLimit (gasLeft - gasLeft / 64)); lia.
Qed.

Lemma maxCallGas_bounds_witness :
  maxCallGas 990000 1000000 (frame 1000000 0 0 []) (commonAt "berlin")
  <= 990000 /\
  (gteHardfork (commonAt "berlin") "tangerineWhistle" = true /\
   0 <= 1000000 /\
   maxCallGas 990000 1000000 (frame 1000000 0 0 []) (commonAt "berlin")
   <= 1000000 /\
   1000000 / 64
   <= 1000000
      - maxCallGas 990000 1000000 (frame 1000000 0 0 []) (commonAt "berlin")).
Proof.
  pose proof (maxCallGas_bounds 990000 1000000 (frame 1000000 0 0 [])
                (commonAt "berlin")) as [Hlimit Hfork].
  split; [exact Hlimit |]. split; [reflexivity |]. split; [lia |].
  apply Hfork; [reflexivity | lia].
Defined.

(** ** The memory charger, further *)

(** X22: [subMemUsage] returns, with the run state as it was, when
    [length] is zero or the new word count is at least
    [memoryWordCount]; in every other case it throws a TypeError, from
    [words.mul(fee)] on a bigint, again with the run state as it was.
    The division by 32 never throws. *)
Theorem subMemUsage_outcome (common : Common) (offset length : Z)
  (rs : RunState) :
  exists w,
    divCeil (offset + length) 32 = Ok w /\
    (length = 0 \/ memoryWordCount rs <= w ->
     subMemUsage offset length common rs = (Ok tt, rs)) /\
    (length <> 0 /\ w < memoryWordCount rs ->
     subMemUsage offset length common rs = (Throw TypeError, rs)).
Proof.
  destruct (divCeil_by_32 (offset + length)) as [w Hw].
  exists w. split; [exact Hw |]. split.
  - intros [-> | Hle]; [reflexivity |].
    now apply subMemUsage_growth_ignored with (w := w).
  - intros [Hl Hlt]. now apply subMemUsage_shrink_throws with (w := w).
Qed.

Lemma subMemUsage_outcome_witness :
  exists w,
    divCeil (0 + 32) 32 = Ok w /\
    ((32 = 0 \/ memoryWordCount (frame 100 0 0 []) <= w) /\
     subMemUsage 0 32 (commonAt "berlin") (frame 100 0 0 [])
     = (Ok tt, frame 100 0 0 [])) /\
    ((32 <> 0 /\ w < memoryWordCount (frame 100 2 6 [])) /\
     subMemUsage 0 32 (commonAt "berlin") (frame 100 2 6 [])
     = (Throw TypeError, frame 100 2 6 [])).
Proof.
  destruct (subMemUsage_outcome (commonAt "berlin") 0 32 (frame 100 0 0 []))
    as (w & Hw & Hret & _).
  destruct (subMemUsage_outcome (commonAt "berlin") 0 32 (frame 100 2 6 []))
    as (w' & Hw' & _ & Hthrow).
  assert (w = 1) as -> by (cbn in Hw; congruence).
  assert (w' = 1) as -> by (cbn in Hw'; congruence).
  exists 1. split; [exact Hw |]. split.
  - assert (32 = 0 \/ memoryWordCount (frame 100 0 0 []) <= 1) as H
      by (right; cbn; lia).
    split; [exact H | exact (Hret H)].
  - assert (32 <> 0 /\ 1 < memoryWordCount (frame 100 2 6 [])) as H
      by (split; [lia | cbn; lia]).
    split; [exact H | exact (Hthrow H)].
Defined.

(** X23: in a frame whose [memoryWordCount] is zero (a fresh frame), any
    sequence of calls of [subMemUsage] with non-negative offsets and
    lengths returns without an exception and leaves the run state as it
    is: no gas is taken and no word is counted. *)
Theorem subMemUsageAll_fresh_frame_unchanged (common : Common)
  (calls : list (Z * Z)) (rs : RunState) :
  memoryWordCount rs = 0 ->
  Forall (fun call => 0 <= fst call /\ 0 <= snd call) calls ->
  subMemUsageAll calls common rs = (Ok tt, rs).
Proof.
  intros Hfresh Hcalls.
  induction Hcalls as [| [offset length] calls [Ho Hl] _ IH];
    [reflexivity |].
  cbn [fst snd] in Ho, Hl. cbn [subMemUsageAll bind Monad_Run].
  assert (subMemUsage offset length common rs = (Ok tt, rs)) as ->.
  { apply subMemUsage_growth_ignored with (w := (offset + length + 32 - 1) / 32).
    - rewrite divCeil_nonneg, ceiling_closed_form by lia. reflexivity.
    - rewrite Hfresh. apply Z.div_pos; lia. }
  exact IH.
Qed.

Lemma subMemUsageAll_fresh_frame_unchanged_witness :
  memoryWordCount (frame 100 0 0 []) = 0 /\
  Forall (fun call => 0 <= fst call /\ 0 <= snd call) [(0, 32); (64, 1000)] /\
  subMemUsageAll [(0, 32); (64, 1000)] (commonAt "berlin") (frame 100 0 0 [])
  = (Ok tt, frame 100 0 0 []).
Proof.
  assert (Forall (fun call => 0 <= fst call /\ 0 <= snd call)
            [(0, 32); (64, 1000)]) as Hcalls.
  { repeat constructor; cbn; lia. }
  split; [reflexivity |]. split; [exact Hcalls |].
  apply (subMemUsageAll_fresh_frame_unchanged (commonAt "berlin")
           [(0, 32); (64, 1000)] (frame 100 0 0 [])); [reflexivity | exact Hcalls].
Defined.

(** X24: across any sequence of calls of [subMemUsage] on one frame,
    whatever their arguments and whether or not the sequence ends in an
    exception, [highestMemCost] never decreases and [gasLeft] never
    increases. *)
Theorem subMemUsageAll_cost_up_gas_down (common : Common)
  (calls : list (Z * Z)) (rs : RunState) :
  highestMemCost rs
  <= highestMemCost (snd (subMemUsageAll calls common rs)) /\
  gasLeft (eei (snd (subMemUsageAll calls common rs)))
  <= gasLeft (eei rs).
Proof.
  revert rs. induction calls as [| [offset length] calls IH]; intros rs.
  - cbn. lia.
  - cbn [subMemUsageAll bind Monad_Run].
    pose proof (subMemUsage_highestMemCost_mono common offset length rs)
      as Hcost.
    pose proof (subMemUsage_gasLeft_antitone common offset length rs)
      as Hgas.
    destruct (subMemUsage offset length common rs) as [[[] | e] rs'].
    + cbn [snd] in Hcost, Hgas. specialize (IH rs'). lia.
    + cbn [snd] in *. lia.
Qed.
